(** * Simple-QA utilities: the CUDA device prober, [pad] and the character tokenizer

    A shallow embedding of [lib/utils.py] ([cuda_devices], [pad]) and of
    [lib/text_encoders/character_encoder.py] ([CharacterEncoder.__init__]),
    with the properties of these functions stated and proved over it.

    Python integers are [Z]; the ctypes cells [c_int], [c_size_t] and
    [c_void_p] are [Z] with their wrap-around written out; Python floats are
    IEEE 754 binary64 numbers, computed with the Standard Library's
    [SpecFloat]; exceptions are an explicit [Raise] outcome; the native driver
    is a record of replies, and every native call is appended to a trace. *)

From Stdlib Require Import ZArith List Bool Lia Sorted SpecFloat.
From stdpp Require Import base list strings gmap.

Local Open Scope Z_scope.

(** ** Python outcomes *)

Inductive exn : Type :=
| ZeroDivisionError
| AttributeError
| UnicodeDecodeError
| ValueError
| TypeError.

Inductive outcome (A : Type) : Type :=
| Return (a : A)
| Raise (e : exn).
Arguments Return {A} a.
Arguments Raise {A} e.

(** ** Python floats (binary64) *)

Module Float.

Definition prec : Z := 53.
Definition emax : Z := 1024.

(** [float(n)] for a Python int: the nearest double, ties to even. *)
Definition of_int (n : Z) : spec_float := binary_normalize prec emax n 0 false.

(** [a / b] on doubles with [b] non-zero (Python raises before dividing by
    zero, see [true_div]). *)
Definition div (a b : spec_float) : spec_float := SFdiv prec emax a b.

(** [a > b]. *)
Definition gt (a b : spec_float) : bool := SFltb b a.

(** The literal [0.98]: the double [0x1.f5c28f5c28f5cp-1]. *)
Definition lit_0_98 : spec_float := S754_finite false 8827055269646172 (-53).

(** [float(a) / b] for Python ints [a], [b]: [ZeroDivisionError] when [b] is
    zero, otherwise both operands are converted and divided. *)
Definition true_div (a b : Z) : outcome spec_float :=
  if b =? 0 then Raise ZeroDivisionError
  else Return (div (of_int a) (of_int b)).

End Float.

(** ** ctypes cells *)

Definition c_int (v : Z) : Z := (v + 2 ^ 31) mod 2 ^ 32 - 2 ^ 31.
Definition c_size_t (v : Z) : Z := v mod 2 ^ 64.
Definition c_void_p (v : Z) : Z := v mod 2 ^ 64.

(** What a [c_char_p] cell holds after the driver wrote to it: no string
    (a NULL pointer, [.value] is [None]), bytes that are not UTF-8, or text. *)
Inductive c_char_p : Type :=
| NullPtr
| Undecodable
| Text (s : string).

(** [error.value.decode()] *)
Definition value_decode (p : c_char_p) : outcome string :=
  match p with
  | NullPtr => Raise AttributeError
  | Undecodable => Raise UnicodeDecodeError
  | Text s => Return s
  end.

(** ** The native driver *)

(** The entry points of the driver library the function calls, with the
    arguments passed by value. *)
Inductive native_call : Type :=
| CuInit (flags : Z)
| CuDeviceGetCount
| CuDeviceGet (ordinal : Z)
| CuCtxCreate (flags : Z) (dev : Z)
| CuMemGetInfo
| CuCtxDetach (ctx : Z)
| CuGetErrorString (code : Z).

(** The replies of the driver while device [i] is scanned: a status for each
    call, and what the call writes through its pointer arguments. The device
    handle is looked up twice (lines 108 and 109), each lookup has its reply. *)
Record device_replies : Type := {
  cuDeviceGet_reply : Z * Z;
  cuDeviceGet_again : Z * Z;
  cuCtxCreate_reply : Z * Z;
  cuMemGetInfo_reply : Z * (Z * Z);
  cuCtxDetach_reply : Z
}.

Record driver : Type := {
  cuInit_reply : Z;
  cuDeviceGetCount_reply : Z * Z;
  scan_replies : Z -> device_replies;
  cuGetErrorString_reply : Z -> c_char_p
}.

(** The machine: which library names [ctypes.CDLL] can load ([None] is the
    [OSError] the loop catches). *)
Record host : Type := { CDLL : string -> option driver }.

(** ** Log records *)

Inductive log_record : Type :=
| Warn_failed (func_name : string) (code : Z) (message : string)
| Info_free_memory (i : Z) (percent : spec_float) (free total : Z)
| Info_available (i : Z).

(** ** The state of one run: the locals of [cuda_devices], the native calls
    made so far and the log, both in the order they happened *)

Record state : Type := {
  result : Z;
  num_gpu : Z;
  error : c_char_p;
  free_memory : Z;
  total_memory : Z;
  context : Z;
  device : Z;
  ret : list Z;
  trace : list native_call;
  log : list log_record
}.

Definition set_result (v : Z) (s : state) : state :=
  {| result := v; num_gpu := num_gpu s; error := error s;
     free_memory := free_memory s; total_memory := total_memory s;
     context := context s; device := device s; ret := ret s;
     trace := trace s; log := log s |}.
Definition set_num_gpu (v : Z) (s : state) : state :=
  {| result := result s; num_gpu := c_int v; error := error s;
     free_memory := free_memory s; total_memory := total_memory s;
     context := context s; device := device s; ret := ret s;
     trace := trace s; log := log s |}.
Definition set_error (v : c_char_p) (s : state) : state :=
  {| result := result s; num_gpu := num_gpu s; error := v;
     free_memory := free_memory s; total_memory := total_memory s;
     context := context s; device := device s; ret := ret s;
     trace := trace s; log := log s |}.
Definition set_memory (free total : Z) (s : state) : state :=
  {| result := result s; num_gpu := num_gpu s; error := error s;
     free_memory := c_size_t free; total_memory := c_size_t total;
     context := context s; device := device s; ret := ret s;
     trace := trace s; log := log s |}.
Definition set_context (v : Z) (s : state) : state :=
  {| result := result s; num_gpu := num_gpu s; error := error s;
     free_memory := free_memory s; total_memory := total_memory s;
     context := c_void_p v; device := device s; ret := ret s;
     trace := trace s; log := log s |}.
Definition set_device (v : Z) (s : state) : state :=
  {| result := result s; num_gpu := num_gpu s; error := error s;
     free_memory := free_memory s; total_memory := total_memory s;
     context := context s; device := c_int v; ret := ret s;
     trace := trace s; log := log s |}.
Definition ret_append (i : Z) (s : state) : state :=
  {| result := result s; num_gpu := num_gpu s; error := error s;
     free_memory := free_memory s; total_memory := total_memory s;
     context := context s; device := device s; ret := ret s ++ [i];
     trace := trace s; log := log s |}.
Definition record_call (c : native_call) (s : state) : state :=
  {| result := result s; num_gpu := num_gpu s; error := error s;
     free_memory := free_memory s; total_memory := total_memory s;
     context := context s; device := device s; ret := ret s;
     trace := trace s ++ [c]; log := log s |}.
Definition record_log (r : log_record) (s : state) : state :=
  {| result := result s; num_gpu := num_gpu s; error := error s;
     free_memory := free_memory s; total_memory := total_memory s;
     context := context s; device := device s; ret := ret s;
     trace := trace s; log := log s ++ [r] |}.

(** ** A state and exception monad *)

Definition M (A : Type) : Type := state -> outcome A * state.

Definition pure {A : Type} (a : A) : M A := fun s => (Return a, s).
Definition bind {A B : Type} (m : M A) (k : A -> M B) : M B :=
  fun s =>
    match m s with
    | (Return a, s') => k a s'
    | (Raise e, s') => (Raise e, s')
    end.
Definition get : M state := fun s => (Return s, s).
Definition modify (f : state -> state) : M unit := fun s => (Return tt, f s).
Definition lift {A : Type} (o : outcome A) : M A := fun s => (o, s).

Notation "x <- m ;; k" := (bind m (fun x => k))
  (at level 100, m at next level, right associativity).
Notation "m ;; k" := (bind m (fun _ => k))
  (at level 100, right associativity).

(** [for x in xs: body(x)] *)
Fixpoint for_each {A : Type} (xs : list A) (body : A -> M unit) : M unit :=
  match xs with
  | [] => pure tt
  | x :: xs' => body x ;; for_each xs' body
  end.

(** [range(n)] *)
Definition range (n : Z) : list Z := map Z.of_nat (seq 0 (Z.to_nat n)).

(** ** Calls into the driver library

    Each call is appended to the trace, writes what the driver replies
    through its pointer arguments and returns the status as a C [int]. *)

Section Library.

Variable cuda : driver.

Definition call_cuInit (flags : Z) : M Z :=
  modify (record_call (CuInit flags)) ;;
  pure (c_int (cuInit_reply cuda)).

Definition call_cuDeviceGetCount : M Z :=
  modify (record_call CuDeviceGetCount) ;;
  modify (set_num_gpu (snd (cuDeviceGetCount_reply cuda))) ;;
  pure (c_int (fst (cuDeviceGetCount_reply cuda))).

Definition call_cuDeviceGet (reply : device_replies -> Z * Z) (i : Z) : M Z :=
  modify (record_call (CuDeviceGet i)) ;;
  modify (set_device (snd (reply (scan_replies cuda i)))) ;;
  pure (c_int (fst (reply (scan_replies cuda i)))).

Definition call_cuCtxCreate (i : Z) (flags : Z) : M Z :=
  s <- get ;;
  modify (record_call (CuCtxCreate flags (device s))) ;;
  modify (set_context (snd (cuCtxCreate_reply (scan_replies cuda i)))) ;;
  pure (c_int (fst (cuCtxCreate_reply (scan_replies cuda i)))).

Definition call_cuMemGetInfo (i : Z) : M Z :=
  modify (record_call CuMemGetInfo) ;;
  modify (set_memory (fst (snd (cuMemGetInfo_reply (scan_replies cuda i))))
                     (snd (snd (cuMemGetInfo_reply (scan_replies cuda i))))) ;;
  pure (c_int (fst (cuMemGetInfo_reply (scan_replies cuda i)))).

Definition call_cuCtxDetach (i : Z) : M Z :=
  s <- get ;;
  modify (record_call (CuCtxDetach (context s))) ;;
  pure (c_int (cuCtxDetach_reply (scan_replies cuda i))).

Definition call_cuGetErrorString (code : Z) : M Z :=
  modify (record_call (CuGetErrorString code)) ;;
  modify (set_error (cuGetErrorString_reply cuda code)) ;;
  pure 0.

(** ** [cuda_devices] *)

Definition CUDA_SUCCESS : Z := 0.

(** The inner function [run] (lines 87-95). Its first parameter is rebound
    to the status of [func] before it is read. *)
Definition run (result : Z) (func_name : string) (func : M Z) : M bool :=
  result <- func ;;
  if negb (result =? CUDA_SUCCESS) then
    call_cuGetErrorString result ;;
    s <- get ;;
    message <- lift (value_decode (error s)) ;;
    modify (record_log (Warn_failed func_name result message)) ;;
    pure false
  else pure true.

(** One iteration of the loop over [range(num_gpu.value)] (lines 108-122);
    [pure tt] before the end of the body is [continue]. *)
Definition scan_device (i : Z) : M unit :=
  s <- get ;;
  ok <- run (result s) "cuDeviceGet" (call_cuDeviceGet cuDeviceGet_reply i) ;;
  if negb ok then pure tt else
  s <- get ;;
  ok <- run (result s) "cuDeviceGet" (call_cuDeviceGet cuDeviceGet_again i) ;;
  if negb ok then pure tt else
  s <- get ;;
  ok <- run (result s) "cuCtxCreate" (call_cuCtxCreate i 0) ;;
  if negb ok then pure tt else
  s <- get ;;
  ok <- run (result s) "cuMemGetInfo" (call_cuMemGetInfo i) ;;
  if negb ok then pure tt else
  s <- get ;;
  percent_free_memory <- lift (Float.true_div (free_memory s) (total_memory s)) ;;
  modify (record_log (Info_free_memory i percent_free_memory
                                       (free_memory s) (total_memory s))) ;;
  (if Float.gt percent_free_memory Float.lit_0_98 then
     modify (record_log (Info_available i)) ;;
     modify (ret_append i)
   else pure tt) ;;
  call_cuCtxDetach i ;;
  pure tt.

(** Lines 101-124, once the library is loaded. *)
Definition scan : M (list Z) :=
  status <- call_cuInit 0 ;;
  modify (set_result status) ;;
  s <- get ;;
  ok <- run (result s) "cuDeviceGetCount" call_cuDeviceGetCount ;;
  if negb ok then s <- get ;; pure (ret s) else
  s <- get ;;
  for_each (range (num_gpu s)) scan_device ;;
  s <- get ;;
  pure (ret s).

End Library.

(** Lines 67-74: the first library name that loads. *)
Definition libnames : list string := ["libcuda.so"; "libcuda.dylib"; "cuda.dll"]%string.

Fixpoint find_cuda (h : host) (names : list string) : option driver :=
  match names with
  | [] => None
  | libname :: names' =>
      match CDLL h libname with
      | Some lib => Some lib
      | None => find_cuda h names'
      end
  end.

(** The body of [cuda_devices] (the function the decorator wraps). *)
Definition cuda_devices (h : host) : M (list Z) :=
  match find_cuda h libnames with
  | None => s <- get ;; pure (ret s)
  | Some cuda => scan cuda
  end.

(** The locals as lines 79-85 create them, before any call and any log. *)
Definition fresh (calls : list native_call) (records : list log_record) : state :=
  {| result := 0; num_gpu := 0; error := NullPtr; free_memory := 0;
     total_memory := 0; context := 0; device := 0; ret := [];
     trace := calls; log := records |}.

Definition start : state := fresh [] [].

(** ** [@lru_cache(maxsize=1)] on a function without arguments

    A process holds the list objects allocated so far, the single cache slot
    (a reference to a list object), and the native calls and log records of
    all calls. An exception leaves the slot empty. *)

Record process : Type := {
  heap : list (list Z);
  cache : option nat;
  calls : list native_call;
  records : list log_record
}.

Definition boot : process :=
  {| heap := []; cache := None; calls := []; records := [] |}.

Definition cuda_devices_cached (h : host) (p : process) : outcome nat * process :=
  match cache p with
  | Some r => (Return r, p)
  | None =>
      match cuda_devices h (fresh (calls p) (records p)) with
      | (Return l, s) =>
          (Return (length (heap p)),
           {| heap := heap p ++ [l]; cache := Some (length (heap p));
              calls := trace s; records := log s |})
      | (Raise e, s) =>
          (Raise e,
           {| heap := heap p; cache := None;
              calls := trace s; records := log s |})
      end
  end.

(** ** What one iteration does, as a function of the driver's replies *)

Definition status_ok (status : Z) : bool := c_int status =? CUDA_SUCCESS.

(** The outcome of the four checked calls for device [i]: the first call
    that fails, with its status, or the memory the driver reported. *)
Inductive verdict : Type :=
| Skipped (func_name : string) (code : Z)
| Measured (free total : Z).

Definition verdict_of (cuda : driver) (i : Z) : verdict :=
  let r := scan_replies cuda i in
  if negb (status_ok (fst (cuDeviceGet_reply r))) then
    Skipped "cuDeviceGet" (c_int (fst (cuDeviceGet_reply r)))
  else if negb (status_ok (fst (cuDeviceGet_again r))) then
    Skipped "cuDeviceGet" (c_int (fst (cuDeviceGet_again r)))
  else if negb (status_ok (fst (cuCtxCreate_reply r))) then
    Skipped "cuCtxCreate" (c_int (fst (cuCtxCreate_reply r)))
  else if negb (status_ok (fst (cuMemGetInfo_reply r))) then
    Skipped "cuMemGetInfo" (c_int (fst (cuMemGetInfo_reply r)))
  else Measured (c_size_t (fst (snd (cuMemGetInfo_reply r))))
                (c_size_t (snd (snd (cuMemGetInfo_reply r)))).

(** The test of line 118 on the reported memory. *)
Definition above_threshold (free total : Z) : bool :=
  Float.gt (Float.div (Float.of_int free) (Float.of_int total)) Float.lit_0_98.

(** Device [i] is appended to [ret]. *)
Definition qualifies (cuda : driver) (i : Z) : bool :=
  match verdict_of cuda i with
  | Skipped _ _ => false
  | Measured free total => negb (total =? 0) && above_threshold free total
  end.

(** The exception raised by [error.value.decode()] after a failed call. *)
Definition decode_exn (cuda : driver) (code : Z) : option exn :=
  match cuGetErrorString_reply cuda code with
  | NullPtr => Some AttributeError
  | Undecodable => Some UnicodeDecodeError
  | Text _ => None
  end.

(** The exception, if any, that leaves the iteration for device [i]. *)
Definition scan_exn (cuda : driver) (i : Z) : option exn :=
  match verdict_of cuda i with
  | Skipped _ code => decode_exn cuda code
  | Measured _ total => if total =? 0 then Some ZeroDivisionError else None
  end.

(** The native calls of the iteration for device [i], in order. *)
Definition scan_calls (cuda : driver) (i : Z) : list native_call :=
  let r := scan_replies cuda i in
  CuDeviceGet i ::
  if negb (status_ok (fst (cuDeviceGet_reply r))) then
    [CuGetErrorString (c_int (fst (cuDeviceGet_reply r)))]
  else
  CuDeviceGet i ::
  if negb (status_ok (fst (cuDeviceGet_again r))) then
    [CuGetErrorString (c_int (fst (cuDeviceGet_again r)))]
  else
  CuCtxCreate 0 (c_int (snd (cuDeviceGet_again r))) ::
  if negb (status_ok (fst (cuCtxCreate_reply r))) then
    [CuGetErrorString (c_int (fst (cuCtxCreate_reply r)))]
  else
  CuMemGetInfo ::
  if negb (status_ok (fst (cuMemGetInfo_reply r))) then
    [CuGetErrorString (c_int (fst (cuMemGetInfo_reply r)))]
  else if c_size_t (snd (snd (cuMemGetInfo_reply r))) =? 0 then []
  else [CuCtxDetach (c_void_p (snd (cuCtxCreate_reply r)))].

Definition outcome_of (e : option exn) : outcome unit :=
  match e with
  | Some e => Raise e
  | None => Return tt
  end.

(** The first iteration that raises, if any. *)
Fixpoint first_exn (cuda : driver) (indices : list Z) : option exn :=
  match indices with
  | [] => None
  | i :: rest =>
      match scan_exn cuda i with
      | Some e => Some e
      | None => first_exn cuda rest
      end
  end.

(** The indices scanned until the loop ends or an iteration raises. *)
Fixpoint scanned (cuda : driver) (indices : list Z) : list Z :=
  match indices with
  | [] => []
  | i :: rest =>
      match scan_exn cuda i with
      | Some _ => [i]
      | None => i :: scanned cuda rest
      end
  end.

(** ** What a whole run does *)

Definition count_status (cuda : driver) : Z := c_int (fst (cuDeviceGetCount_reply cuda)).
Definition count (cuda : driver) : Z := c_int (snd (cuDeviceGetCount_reply cuda)).

(** The devices a run on a loaded library reports. *)
Definition available (cuda : driver) : list Z :=
  if count_status cuda =? CUDA_SUCCESS
  then List.filter (qualifies cuda) (range (count cuda))
  else [].

(** The exception a run on a loaded library ends with, if any. *)
Definition scan_raises (cuda : driver) : option exn :=
  if count_status cuda =? CUDA_SUCCESS
  then first_exn cuda (range (count cuda))
  else decode_exn cuda (count_status cuda).

(** The native calls of a run on a loaded library. *)
Definition driver_calls (cuda : driver) : list native_call :=
  CuInit 0 :: CuDeviceGetCount ::
  if count_status cuda =? CUDA_SUCCESS
  then concat (map (scan_calls cuda) (scanned cuda (range (count cuda))))
  else [CuGetErrorString (count_status cuda)].

Definition expected (h : host) : list Z :=
  match find_cuda h libnames with
  | None => []
  | Some cuda => available cuda
  end.

Definition raises (h : host) : option exn :=
  match find_cuda h libnames with
  | None => None
  | Some cuda => scan_raises cuda
  end.

Definition native_calls (h : host) : list native_call :=
  match find_cuda h libnames with
  | None => []
  | Some cuda => driver_calls cuda
  end.


(** ** [pad] (lines 147-157)

    A row is a one-dimensional [LongTensor], a list of integers.
    [PADDING_INDEX] is imported from [lib.text_encoders]; the function is
    embedded for any value of it. *)

Section Pad.

Variable PADDING_INDEX : Z.

Definition len {A : Type} (row : list A) : Z := Z.of_nat (length row).

(** [max(xs)]: [ValueError] on an empty list. *)
Definition py_max (xs : list Z) : outcome Z :=
  match xs with
  | [] => Raise ValueError
  | x :: xs' => Return (fold_left Z.max xs' x)
  end.

(** [n * [x]]: empty when [n] is not positive. *)
Definition times (n : Z) (x : Z) : list Z := replicate (Z.to_nat n) x.

(** The body of the [for row in batch] loop, [padded] being the accumulator. *)
Definition pad_row (max_len : Z) (padded : list (list Z)) (row : list Z)
  : list (list Z) :=
  let n_padding := max_len - len row in
  let padding := times n_padding PADDING_INDEX in
  padded ++ [row ++ padding].

Definition pad (batch : list (list Z)) : outcome (list (list Z) * list Z) :=
  let lengths := map len batch in
  match py_max lengths with
  | Raise e => Raise e
  | Return max_len =>
      let padded := fold_left (pad_row max_len) batch [] in
      Return (padded, lengths)
  end.

End Pad.

(** ** [CharacterEncoder.__init__] *)

(** [s.split(sep)] with a separator: [ValueError] when it is empty, else the
    pieces of [s] between the occurrences of [sep], found from the left.
    [skip] counts the characters of a matched separator still to pass. *)
Fixpoint split_from (sep : string) (skip : nat) (piece : string) (s : string)
  : list string :=
  match s with
  | EmptyString => [piece]
  | String c s' =>
      match skip with
      | S k => split_from sep k piece s'
      | O =>
          if String.prefix sep s
          then piece :: split_from sep (String.length sep - 1) EmptyString s'
          else split_from sep O (piece +:+ String c EmptyString) s'
      end
  end.

Definition str_split (s sep : string) : outcome (list string) :=
  match sep with
  | EmptyString => Raise ValueError
  | _ => Return (split_from sep O EmptyString s)
  end.

(** The callable of line 9. *)
Definition tokenize (s : string) : outcome (list string) :=
  str_split s EmptyString.

(** [__init__] up to the call of the parent's [__init__]: the [TypeError] of
    line 8, or the [tokenize] keyword handed to the parent class. *)
Definition CharacterEncoder_init {V : Type} (kwargs : gmap string V)
  : outcome (string -> outcome (list string)) :=
  match kwargs !! "tokenize"%string with
  | Some _ => Raise TypeError
  | None => Return tokenize
  end.

(** ** Conditions on the driver *)

(** The conditions under which a run raises nothing: every failing status
    the run meets (of the count query, of a step of a device below the
    count) has an error string that decodes, and no memory query that
    succeeds reports a total of zero. *)
Definition strings_decode (cuda : driver) : Prop :=
  (count_status cuda <> CUDA_SUCCESS ->
   exists message,
     cuGetErrorString_reply cuda (count_status cuda) = Text message) /\
  (forall i func_name code, 0 <= i < count cuda ->
     verdict_of cuda i = Skipped func_name code ->
     exists message, cuGetErrorString_reply cuda code = Text message).

Definition totals_nonzero (cuda : driver) : Prop :=
  forall i free total, 0 <= i < count cuda ->
    verdict_of cuda i = Measured free total -> total <> 0.


(** ** Calling the cached function several times *)


(** ** Sample machines *)

(** Every call for the device succeeds; the handle is [7 + i], the context
    [4096 * (i + 1)]. *)
Definition healthy (i free total : Z) : device_replies :=
  {| cuDeviceGet_reply := (0, 7 + i);
     cuDeviceGet_again := (0, 7 + i);
     cuCtxCreate_reply := (0, 4096 * (i + 1));
     cuMemGetInfo_reply := (0, (free, total));
     cuCtxDetach_reply := 0 |}.

(** The memory query fails with status 2 after the context was created. *)
Definition query_fails (i : Z) : device_replies :=
  {| cuDeviceGet_reply := (0, 7 + i);
     cuDeviceGet_again := (0, 7 + i);
     cuCtxCreate_reply := (0, 4096 * (i + 1));
     cuMemGetInfo_reply := (2, (0, 0));
     cuCtxDetach_reply := 0 |}.

Definition describe (code : Z) : c_char_p :=
  if code =? 2 then Text "out of memory"
  else if code =? 3 then Text "initialization error"
  else if code =? 100 then Text "no CUDA-capable device is detected"
  else Text "unknown error".

(** Three devices, the memory query of device 1 fails, devices 0 and 2 have
    99% of their memory free. *)
Definition three_devices : driver :=
  {| cuInit_reply := 0;
     cuDeviceGetCount_reply := (0, 3);
     scan_replies := fun i => if i =? 1 then query_fails i else healthy i 99 100;
     cuGetErrorString_reply := describe |}.

(** Four devices, devices 0 and 3 have 99% free, devices 1 and 2 half. *)
Definition four_devices : driver :=
  {| cuInit_reply := 0;
     cuDeviceGetCount_reply := (0, 4);
     scan_replies := fun i =>
       if (i =? 0) || (i =? 3) then healthy i 99 100 else healthy i 50 100;
     cuGetErrorString_reply := describe |}.

(** [cuInit] reports status 100, every later call succeeds. *)
Definition init_fails : driver :=
  {| cuInit_reply := 100;
     cuDeviceGetCount_reply := (0, 1);
     scan_replies := fun i => healthy i 99 100;
     cuGetErrorString_reply := describe |}.

(** [cuInit] reports status 100 and the count query then reports status 3,
    as a driver that was not initialized does. *)
Definition not_initialized : driver :=
  {| cuInit_reply := 100;
     cuDeviceGetCount_reply := (3, 0);
     scan_replies := fun i => healthy i 99 100;
     cuGetErrorString_reply := describe |}.

(** One device whose memory query succeeds and reports a total of zero. *)
Definition zero_total : driver :=
  {| cuInit_reply := 0;
     cuDeviceGetCount_reply := (0, 1);
     scan_replies := fun i => healthy i 0 0;
     cuGetErrorString_reply := describe |}.

(** The count query fails and the driver has no string for the status. *)
Definition no_string : driver :=
  {| cuInit_reply := 0;
     cuDeviceGetCount_reply := (999, 0);
     scan_replies := fun i => healthy i 99 100;
     cuGetErrorString_reply := fun _ => NullPtr |}.

(** Two devices, the memory query of device 0 fails. *)
Definition two_devices : driver :=
  {| cuInit_reply := 0;
     cuDeviceGetCount_reply := (0, 2);
     scan_replies := fun i => if i =? 0 then query_fails i else healthy i 99 100;
     cuGetErrorString_reply := describe |}.

(** One device with exactly 98% of its memory free. *)
Definition at_threshold : driver :=
  {| cuInit_reply := 0;
     cuDeviceGetCount_reply := (0, 1);
     scan_replies := fun i => healthy i 98 100;
     cuGetErrorString_reply := describe |}.

(** A machine on which [libcuda.so] loads and is the given driver. *)
Definition host_of (cuda : driver) : host :=
  {| CDLL := fun libname =>
       if String.eqb libname "libcuda.so" then Some cuda else None |}.

(** A machine without any of the libraries. *)
Definition no_driver : host := {| CDLL := fun _ => None |}.

(** ** The other functions of [lib/utils.py] and [CharacterEncoder.decode]

    These functions raise exceptions the prober does not: the type
    [attempt] adds them to [exn]. *)

Inductive py_exn : Type :=
| IndexError
| KeyError
| RuntimeError
| OverflowError
| Builtin (e : exn).

Inductive attempt (A : Type) : Type :=
| Ok (a : A)
| Err (e : py_exn).
Arguments Ok {A} a.
Arguments Err {A} e.

Definition of_outcome {A : Type} (o : outcome A) : attempt A :=
  match o with
  | Return a => Ok a
  | Raise e => Err (Builtin e)
  end.

Definition and_then {A B : Type} (r : attempt A) (k : A -> attempt B) : attempt B :=
  match r with
  | Ok a => k a
  | Err e => Err e
  end.

(** [[f(x) for x in xs]]: the first exception ends the comprehension. *)
Fixpoint comprehension {A B : Type} (f : A -> attempt B) (xs : list A)
  : attempt (list B) :=
  match xs with
  | [] => Ok []
  | x :: xs' =>
      and_then (f x) (fun y =>
      and_then (comprehension f xs') (fun ys => Ok (y :: ys)))
  end.

(** [xs[i]] on a list or a tuple: a negative index counts from the end. *)
Definition getitem {A : Type} (xs : list A) (i : Z) : attempt A :=
  let n := len xs in
  let j := if i <? 0 then i + n else i in
  if (j <? 0) || (n <=? j) then Err IndexError
  else match xs !! Z.to_nat j with
       | Some x => Ok x
       | None => Err IndexError
       end.

(** *** [get_total_parameters] (lines 127-130) *)

(** What the function reads of a parameter: the flag and [x.size()]. *)
Record parameter : Type := { requires_grad : bool; x_size : list Z }.

(** The term the generator yields for [x]. *)
Definition counted (x : parameter) : attempt Z :=
  if 1 <? len (x_size x) then
    and_then (getitem (x_size x) 0) (fun d0 =>
    and_then (getitem (x_size x) 1) (fun d1 => Ok (d0 * d1)))
  else getitem (x_size x) 0.

(** [sum(gen)]: the terms are added from the left, starting from 0. *)
Fixpoint py_sum {A : Type} (term : A -> attempt Z) (xs : list A) (acc : Z)
  : attempt Z :=
  match xs with
  | [] => Ok acc
  | x :: xs' => and_then (term x) (fun v => py_sum term xs' (acc + v))
  end.

Definition get_total_parameters (model_parameters : list parameter) : attempt Z :=
  let params := List.filter requires_grad model_parameters in
  py_sum counted params 0.

(** The number of elements of a tensor of the given size. *)
Definition numel (sz : list Z) : Z := fold_right Z.mul 1 sz.

(** *** [torch_equals_ignore_index] (lines 261-275), on one-dimensional
    [LongTensor]s: the elements are signed integers of 64 bits *)

(** The Python ints an element of a [LongTensor] can hold. *)
Definition int64 (v : Z) : bool := (- 2 ^ 63 <=? v) && (v <? 2 ^ 63).

(** [target.ne(v)] with a Python int [v]: torch converts [v] to the element
    type before it compares, and raises [OverflowError] for an int that the
    64 bits cannot hold. *)
Definition tensor_ne (t : list Z) (v : Z) : attempt (list bool) :=
  if int64 v then Ok (map (fun x => negb (x =? v)) t)
  else Err OverflowError.

(** The elements of [input] at the positions where [mask] is true. *)
Fixpoint select {A : Type} (input : list A) (mask : list bool) : list A :=
  match input, mask with
  | x :: input', b :: mask' =>
      if b then x :: select input' mask' else select input' mask'
  | _, _ => []
  end.

(** [input.masked_select(mask)]: the shapes are broadcast, a tensor of one
    element is repeated to the length of the other; other lengths that
    differ raise [RuntimeError]. *)
Definition masked_select {A : Type} (input : list A) (mask : list bool)
  : attempt (list A) :=
  if (length input =? length mask)%nat then Ok (select input mask)
  else match mask, input with
       | [b], _ => Ok (select input (replicate (length input) b))
       | _, [x] => Ok (select (replicate (length mask) x) mask)
       | _, _ => Err RuntimeError
       end.

(** [torch.equal(a, b)]: same size and same elements. *)
Definition torch_equal (a b : list Z) : bool := bool_decide (a = b).

Definition torch_equals_ignore_index (target prediction : list Z)
    (ignore_index : option Z) : attempt bool :=
  match ignore_index with
  | Some ignored =>
      and_then (tensor_ne target ignored) (fun mask_arr =>
      and_then (masked_select target mask_arr) (fun target' =>
      and_then (masked_select prediction mask_arr) (fun prediction' =>
      Ok (torch_equal target' prediction'))))
  | None => Ok (torch_equal target prediction)
  end.

(** *** [CharacterEncoder.decode] (lines 11-13) *)

(** [''.join(tokens)] *)
Definition join (tokens : list string) : string :=
  fold_right String.append EmptyString tokens.

(** [itos] is the list of tokens the parent class builds. *)
Definition decode (itos : list string) (tensor : list Z) : attempt string :=
  and_then (comprehension (getitem itos) tensor) (fun tokens =>
  Ok (join tokens)).

(** *** [collate_fn] (lines 160-180) *)

(** What a row holds under a key: a one-dimensional integer tensor, or an
    object without a length (a number, an identifier). *)
Inductive value : Type :=
| VTensor (t : list Z)
| VObject (o : Z).

(** [row[key]] on a dict *)
Definition row_get (row : gmap string value) (key : string) : attempt value :=
  match row !! key with
  | Some v => Ok v
  | None => Err KeyError
  end.

(** [len(v)] and the tensor operations need a tensor: an object without a
    length raises [TypeError]. *)
Definition as_tensor (v : value) : attempt (list Z) :=
  match v with
  | VTensor t => Ok t
  | VObject _ => Err (Builtin TypeError)
  end.

(** [len(row[key])], the key function of line 164, with the row. *)
Definition sort_key_of (key : string) (row : gmap string value)
  : attempt (Z * gmap string value) :=
  and_then (row_get row key) (fun v =>
  and_then (as_tensor v) (fun t => Ok (len t, row))).

(** Insertion into a list sorted by decreasing key, before the elements
    with the same key already there. *)
Fixpoint insert_desc {A : Type} (x : Z * A) (sorted : list (Z * A))
  : list (Z * A) :=
  match sorted with
  | [] => [x]
  | y :: sorted' =>
      if fst y <=? fst x then x :: y :: sorted'
      else y :: insert_desc x sorted'
  end.

(** [sorted(xs, key=..., reverse=True)] on elements paired with their keys:
    decreasing keys, elements with equal keys in their input order (the sort
    is stable, also when reversed). The elements are inserted from the last
    to the first, each before the later elements with the same key. *)
Definition sorted_desc {A : Type} (keyed : list (Z * A)) : list (Z * A) :=
  fold_right insert_desc [] keyed.

(** The row holds a tensor of length [n] under [key]. *)
Definition has_length (key : string) (n : Z) (row : gmap string value) : bool :=
  match row !! key with
  | Some (VTensor t) => len t =? n
  | _ => false
  end.

(** [torch.stack(rows).t_()]: the rows become the columns. [width] is the
    common length of the rows. *)
Fixpoint transpose (width : nat) (rows : list (list Z)) : list (list Z) :=
  match rows with
  | [] => replicate width []
  | row :: rows' => zip_with cons row (transpose width rows')
  end.

(** What [ret] holds under a key. *)
Inductive collated : Type :=
| Padded (tensor : list (list Z)) (lengths : list Z)
| Column (values : list value).

Section Collate.

Variable PADDING_INDEX : Z.

(** [preprocess([row[key] for row in batch])] followed by the stack and
    the transposition of lines 170-173. *)
Definition collate_column (batch : list (gmap string value)) (key : string)
  : attempt collated :=
  and_then (comprehension (fun row => row_get row key) batch) (fun values =>
  and_then (comprehension as_tensor values) (fun rows =>
  and_then (of_outcome (pad PADDING_INDEX rows)) (fun '(padded, lengths) =>
  let width := match padded with [] => O | row :: _ => length row end in
  Ok (Padded (transpose width padded) lengths)))).

(** Lines 163-164: a sort key that is [None] or empty does not sort. *)
Definition sort_batch (batch : list (gmap string value))
    (sort_key : option string) : attempt (list (gmap string value)) :=
  match sort_key with
  | None | Some EmptyString => Ok batch
  | Some key =>
      and_then (comprehension (sort_key_of key) batch)
               (fun keyed => Ok (map snd (sorted_desc keyed)))
  end.

(** Lines 174-176: the other keys of the first row. *)
Definition other_columns (batch : list (gmap string value))
    (input_key output_key : string) (ret : gmap string collated)
  : attempt (gmap string collated) :=
  match batch with
  | [] => Err IndexError
  | first :: _ =>
      map_fold (fun key _ acc =>
                  and_then acc (fun ret =>
                  if bool_decide (key = input_key \/ key = output_key) then Ok ret
                  else and_then (comprehension (fun row => row_get row key) batch)
                         (fun values => Ok (<[key := Column values]> ret))))
               (Ok ret) first
  end.

Definition collate_fn (batch : list (gmap string value))
    (input_key output_key : string) (sort_key : option string)
  : attempt (gmap string collated) :=
  and_then (sort_batch batch sort_key) (fun batch =>
  and_then (collate_column batch input_key) (fun input =>
  and_then (collate_column batch output_key) (fun output =>
  let ret := <[output_key := output]> (<[input_key := input]> ∅) in
  other_columns batch input_key output_key ret))).

End Collate.

(** *** [iterate_batch] (lines 196-223) *)

(** A tensor with at least two dimensions, seen through its first two: its
    size along them and the entry (a number or a sub-tensor) at a pair of
    indices. *)
Record tensor (A : Type) : Type := {
  size0 : nat;
  size1 : nat;
  entry : nat -> nat -> A
}.
Arguments size0 {A} t.
Arguments size1 {A} t.
Arguments entry {A} t i j.

(** A tensor along one dimension. *)
Record vector (A : Type) : Type := {
  vsize : nat;
  ventry : nat -> A
}.
Arguments vsize {A} v.
Arguments ventry {A} v j.

(** [t.transpose(0, 1)] *)
Definition transpose01 {A : Type} (t : tensor A) : tensor A :=
  {| size0 := size1 t; size1 := size0 t; entry := fun i j => entry t j i |}.

(** [arg[i]] for an index that is not negative. *)
Definition tensor_getitem {A : Type} (t : tensor A) (i : nat)
  : attempt (vector A) :=
  if (i <? size0 t)%nat
  then Ok {| vsize := size1 t; ventry := fun j => entry t i j |}
  else Err IndexError.

(** The loop of lines 219-223 from index [i] on, [n] iterations left: the
    tuples yielded, then the exception that ends the generator, if any. *)
Fixpoint iterate_from {A : Type} (args : list (tensor A)) (i n : nat)
  : list (list (vector A)) * option py_exn :=
  match n with
  | O => ([], None)
  | S n' =>
      match comprehension (fun arg => tensor_getitem arg i) args with
      | Err e => ([], Some e)
      | Ok ret =>
          let (yielded, ending) := iterate_from args (S i) n' in
          (ret :: yielded, ending)
      end
  end.

Definition iterate_batch {A : Type} (args : list (tensor A))
    (batch_first : bool) : list (list (vector A)) * option py_exn :=
  let args := if batch_first then args else map transpose01 args in
  match args with
  | [] => ([], Some IndexError)
  | first :: _ =>
      let batch_size := size0 first in
      iterate_from args 0 batch_size
  end.

(** ** More sample machines *)

(** The count query succeeds and writes a negative number. *)
Definition negative_count : driver :=
  {| cuInit_reply := 0;
     cuDeviceGetCount_reply := (0, -1);
     scan_replies := fun i => healthy i 99 100;
     cuGetErrorString_reply := describe |}.

(** The machine [three_devices] with a driver that writes no error string:
    the memory query of device 1 fails, devices 0 and 2 have 99% of their
    memory free. *)
Definition three_devices_no_string : driver :=
  {| cuInit_reply := 0;
     cuDeviceGetCount_reply := (0, 3);
     scan_replies := fun i => if i =? 1 then query_fails i else healthy i 99 100;
     cuGetErrorString_reply := fun _ => NullPtr |}.

(** Three devices with error strings: device 0 has 99% of its memory free,
    the memory query of device 1 fails, the one of device 2 succeeds and
    reports a total of zero. *)
Definition three_devices_zero_total : driver :=
  {| cuInit_reply := 0;
     cuDeviceGetCount_reply := (0, 3);
     scan_replies := fun i =>
       if i =? 1 then query_fails i
       else if i =? 2 then healthy i 0 0 else healthy i 99 100;
     cuGetErrorString_reply := describe |}.

(** A machine on which only [cuda.dll] loads. *)
Definition dll_only (cuda : driver) : host :=
  {| CDLL := fun libname =>
       if String.eqb libname "cuda.dll" then Some cuda else None |}.

(** A batch of three rows with a source, a target and an identifier. *)
Definition sample_row (src tgt : list Z) (id : Z) : gmap string value :=
  <["src" := VTensor src]> (<["tgt" := VTensor tgt]> (<["id" := VObject id]> ∅)).

Definition sample_batch : list (gmap string value) :=
  [sample_row [5; 6] [1] 10; sample_row [7; 8; 9] [2; 3] 11;
   sample_row [4] [0] 12].

(** What [collate_fn] returns on a batch, the empty dict if it raises. *)
Definition collated_or_empty (r : attempt (gmap string collated))
  : gmap string collated :=
  match r with
  | Ok ret => ret
  | Err _ => ∅
  end.
(** ** Lemmas on the loop *)

Lemma run_eq (cuda : driver) (r : Z) (name : string) (func : M Z)
    (s s1 : state) (status : Z) :
  func s = (Return status, s1) ->
  run cuda r name func s =
    if status =? CUDA_SUCCESS then (Return true, s1)
    else
      let s2 := set_error (cuGetErrorString_reply cuda status)
                          (record_call (CuGetErrorString status) s1) in
      match cuGetErrorString_reply cuda status with
      | NullPtr => (Raise AttributeError, s2)
      | Undecodable => (Raise UnicodeDecodeError, s2)
      | Text m => (Return false, record_log (Warn_failed name status m) s2)
      end.
Proof.
  intros Hf. unfold run, bind. rewrite Hf.
  destruct (status =? CUDA_SUCCESS); simpl; [reflexivity|].
  unfold call_cuGetErrorString, bind, modify, pure, get, lift; simpl.
  destruct (cuGetErrorString_reply cuda status); reflexivity.
Qed.

Lemma scan_device_spec (cuda : driver) (i : Z) (s : state) :
  exists s',
    scan_device cuda i s = (outcome_of (scan_exn cuda i), s') /\
    ret s' = ret s ++ (if qualifies cuda i then [i] else []) /\
    trace s' = trace s ++ scan_calls cuda i.
Proof.
  unfold scan_device, scan_exn, qualifies, scan_calls, verdict_of, status_ok,
    decode_exn, above_threshold.
  unfold bind at 1. simpl.
  unfold bind at 1.
  erewrite run_eq by reflexivity.
  destruct (c_int (fst (cuDeviceGet_reply (scan_replies cuda i))) =? CUDA_SUCCESS);
    simpl.
  2:{ destruct (cuGetErrorString_reply cuda _); simpl; eexists;
      (split; [reflexivity|]); simpl; rewrite ?app_nil_r, <- ?app_assoc; auto. }
  unfold bind at 1. simpl. unfold bind at 1.
  erewrite run_eq by reflexivity.
  destruct (c_int (fst (cuDeviceGet_again (scan_replies cuda i))) =? CUDA_SUCCESS);
    simpl.
  2:{ destruct (cuGetErrorString_reply cuda _); simpl; eexists;
      (split; [reflexivity|]); simpl; rewrite ?app_nil_r, <- ?app_assoc; auto. }
  unfold bind at 1. simpl. unfold bind at 1.
  erewrite run_eq by reflexivity.
  destruct (c_int (fst (cuCtxCreate_reply (scan_replies cuda i))) =? CUDA_SUCCESS);
    simpl.
  2:{ destruct (cuGetErrorString_reply cuda _); simpl; eexists;
      (split; [reflexivity|]); simpl; rewrite ?app_nil_r, <- ?app_assoc; auto. }
  unfold bind at 1. simpl. unfold bind at 1.
  erewrite run_eq by reflexivity.
  destruct (c_int (fst (cuMemGetInfo_reply (scan_replies cuda i))) =? CUDA_SUCCESS);
    simpl.
  2:{ destruct (cuGetErrorString_reply cuda _); simpl; eexists;
      (split; [reflexivity|]); simpl; rewrite ?app_nil_r, <- ?app_assoc; auto. }
  unfold bind, lift, Float.true_div; simpl.
  destruct (c_size_t (snd (snd (cuMemGetInfo_reply (scan_replies cuda i)))) =? 0);
    simpl.
  { eexists; (split; [reflexivity|]); simpl;
    rewrite ?app_nil_r, <- ?app_assoc; auto. }
  destruct (Float.gt _ _); simpl; eexists; (split; [reflexivity|]); simpl;
    rewrite ?app_nil_r, <- ?app_assoc; auto.
Qed.

Lemma scanned_all (cuda : driver) (indices : list Z) :
  first_exn cuda indices = None -> scanned cuda indices = indices.
Proof.
  induction indices as [|i rest IH]; simpl; [reflexivity|].
  destruct (scan_exn cuda i); [discriminate|].
  intros H. f_equal. apply IH, H.
Qed.

Lemma for_each_scan_spec (cuda : driver) (indices : list Z) (s : state) :
  exists s',
    for_each indices (scan_device cuda) s
      = (outcome_of (first_exn cuda indices), s') /\
    ret s' = ret s ++ List.filter (qualifies cuda) (scanned cuda indices) /\
    trace s' = trace s ++ concat (map (scan_calls cuda) (scanned cuda indices)).
Proof.
  revert s. induction indices as [|i rest IH]; intros s; simpl.
  - exists s. rewrite !app_nil_r. auto.
  - destruct (scan_device_spec cuda i s) as (s1 & Hrun & Hret & Htrace).
    unfold bind. rewrite Hrun.
    destruct (scan_exn cuda i) as [e|] eqn:He; simpl.
    + exists s1. rewrite Hret, Htrace, app_nil_r. auto.
    + destruct (IH s1) as (s2 & Hrun2 & Hret2 & Htrace2).
      exists s2. rewrite Hrun2, Hret2, Htrace2, Hret, Htrace.
      rewrite <- !app_assoc.
      destruct (qualifies cuda i); auto.
Qed.

Lemma scan_spec (cuda : driver) (s : state) :
  exists s',
    scan cuda s =
      (match scan_raises cuda with
       | Some e => Raise e
       | None => Return (ret s ++ available cuda)
       end, s') /\
    trace s' = trace s ++ driver_calls cuda.
Proof.
  unfold scan, scan_raises, available, driver_calls, count_status, count.
  unfold bind at 1. simpl. unfold bind at 1. simpl. unfold bind at 1. simpl.
  unfold bind at 1.
  erewrite run_eq by reflexivity.
  destruct (c_int (fst (cuDeviceGetCount_reply cuda)) =? CUDA_SUCCESS); simpl.
  - unfold bind at 1. simpl. unfold bind at 1.
    match goal with
    | |- context [for_each ?l _ ?s0] =>
        destruct (for_each_scan_spec cuda l s0) as (s1 & Hrun & Hret & Htrace)
    end.
    simpl in *. rewrite Hrun.
    destruct (first_exn cuda _) as [e|] eqn:He; simpl.
    + exists s1. split; [reflexivity|]. rewrite Htrace, <- !app_assoc. reflexivity.
    + exists s1. rewrite (scanned_all _ _ He) in Hret.
      unfold bind, get, pure. rewrite Hret. split; [reflexivity|].
      rewrite Htrace, <- !app_assoc. reflexivity.
  - unfold decode_exn.
    destruct (cuGetErrorString_reply cuda _); simpl;
      unfold bind, get, pure; simpl; rewrite ?app_nil_r; eexists;
      (split; [reflexivity|]); simpl; rewrite <- ?app_assoc; reflexivity.
Qed.

Lemma cuda_devices_spec (h : host) (s : state) :
  exists s',
    cuda_devices h s =
      (match raises h with
       | Some e => Raise e
       | None => Return (ret s ++ expected h)
       end, s') /\
    trace s' = trace s ++ native_calls h.
Proof.
  unfold cuda_devices, raises, expected, native_calls.
  destruct (find_cuda h libnames) as [cuda|].
  - apply scan_spec.
  - exists s. rewrite !app_nil_r. auto.
Qed.

(** ** The threshold test in double precision *)

Ltac powers :=
  change (2 ^ 52) with 4503599627370496 in *;
  change (2 ^ 53) with 9007199254740992 in *;
  change (2 ^ 54) with 18014398509481984 in *.

Lemma digits2_pos_size (p : positive) : digits2_pos p = Pos.size p.
Proof. induction p; simpl; congruence. Qed.

Lemma Zdigits2_log2 (q : Z) : 0 < q -> Zdigits2 q = Z.log2 q + 1.
Proof.
  destruct q as [|p|p]; try lia. intros _. simpl.
  rewrite digits2_pos_size. destruct p; simpl; lia.
Qed.

Lemma Zdigits2_unique (q d : Z) :
  0 < d -> 2 ^ (d - 1) <= q < 2 ^ d -> Zdigits2 q = d.
Proof.
  intros Hd Hq.
  assert (0 < q) by (assert (0 < 2 ^ (d - 1)) by (apply Z.pow_pos_nonneg; lia); lia).
  rewrite Zdigits2_log2 by assumption.
  rewrite (Z.log2_unique q (d - 1)); [lia|lia|].
  replace (Z.succ (d - 1)) with d by lia. exact Hq.
Qed.

Lemma iter_xO_pow (p k : positive) :
  Zpos (Pos.iter xO p k) = Zpos p * 2 ^ Zpos k.
Proof.
  rewrite <- Z.shiftl_mul_pow2 by lia.
  unfold Z.shiftl.
  apply (Pos.iter_swap_gen _ _ Zpos xO (Z.mul 2)). reflexivity.
Qed.

Lemma loc_of_shr_record_of_loc (m : Z) (l : location) :
  loc_of_shr_record (shr_record_of_loc m l) = l.
Proof. destruct l as [|[]]; reflexivity. Qed.

Lemma shr_m_of_loc (m : Z) (l : location) : shr_m (shr_record_of_loc m l) = m.
Proof. destruct l as [|[]]; reflexivity. Qed.

Lemma round_nearest_even_bounds (q : Z) (l : location) :
  q <= round_nearest_even q l <= q + 1.
Proof. destruct l as [|[]]; simpl; try lia. destruct (Z.even q); lia. Qed.

Lemma round_aux_53 (q e : Z) (l : location) :
  2 ^ 52 <= q < 2 ^ 53 -> -1074 <= e <= 970 ->
  binary_round_aux 53 1024 false q e l =
    if round_nearest_even q l =? 2 ^ 53
    then S754_finite false (Z.to_pos (2 ^ 52)) (e + 1)
    else S754_finite false (Z.to_pos (round_nearest_even q l)) e.
Proof.
  intros Hq He. unfold binary_round_aux, shr_fexp.
  rewrite (Zdigits2_unique q 53) by (powers; lia). powers.
  replace (fexp 53 1024 (53 + e) - e) with 0 by (unfold fexp, emin; lia).
  simpl shr. cbv beta iota zeta. rewrite shr_m_of_loc, loc_of_shr_record_of_loc.
  pose proof (round_nearest_even_bounds q l) as Hm.
  set (m1 := round_nearest_even q l) in *.
  destruct (m1 =? 9007199254740992) eqn:E.
  - apply Z.eqb_eq in E. rewrite E.
    replace (fexp 53 1024 (Zdigits2 9007199254740992 + e) - e) with 1
      by (unfold fexp, emin; change (Zdigits2 9007199254740992) with 54; lia).
    simpl. change (1024 - 53) with 971.
    destruct (e + 1 <=? 971) eqn:E1; [reflexivity|lia].
  - apply Z.eqb_neq in E.
    rewrite (Zdigits2_unique m1 53) by (powers; lia).
    replace (fexp 53 1024 (53 + e) - e) with 0 by (unfold fexp, emin; lia).
    simpl. change (1024 - 53) with 971. destruct m1 as [|p|p]; try lia.
    destruct (e <=? 971) eqn:E1; [reflexivity|lia].
Qed.

Lemma shr_1_spec (q : Z) (l : location) :
  0 < q ->
  shr_m (shr_1 (shr_record_of_loc q l)) = q / 2 /\
  (Z.even q = true ->
   loc_of_shr_record (shr_1 (shr_record_of_loc q l)) = loc_Exact \/
   loc_of_shr_record (shr_1 (shr_record_of_loc q l)) = loc_Inexact Lt).
Proof.
  intros Hq. destruct q as [|p|p]; try lia.
  assert (Hhalf : forall (b : bool) (p' : positive),
             Zpos p = 2 * Zpos p' + Z.b2z b -> Zpos p / 2 = Zpos p').
  { intros b p' H. symmetry. apply Z.div_unique with (Z.b2z b); [|lia].
    destruct b; simpl; lia. }
  split.
  - destruct p as [p|p|]; destruct l as [|[]];
      cbn [shr_record_of_loc shr_1 shr_m];
      solve [ apply (eq_sym (Hhalf true p eq_refl))
            | apply (eq_sym (Hhalf false p eq_refl))
            | reflexivity ].
  - destruct p as [p|p|]; simpl; try discriminate.
    intros _. destruct l as [|[]]; simpl; auto.
Qed.

Lemma round_aux_54 (q e : Z) (l : location) :
  2 ^ 53 <= q < 2 ^ 54 -> -1074 <= e <= 969 ->
  let l' := loc_of_shr_record (shr_1 (shr_record_of_loc q l)) in
  binary_round_aux 53 1024 false q e l =
    if round_nearest_even (q / 2) l' =? 2 ^ 53
    then S754_finite false (Z.to_pos (2 ^ 52)) (e + 2)
    else S754_finite false (Z.to_pos (round_nearest_even (q / 2) l')) (e + 1).
Proof.
  intros Hq He l'. unfold binary_round_aux, shr_fexp.
  rewrite (Zdigits2_unique q 54) by (powers; lia). powers.
  replace (fexp 53 1024 (54 + e) - e) with 1 by (unfold fexp, emin; lia).
  simpl shr. cbv beta iota zeta.
  destruct (shr_1_spec q l ltac:(lia)) as [Hm _]. rewrite Hm. fold l'.
  assert (Hq2 : 2 ^ 52 <= q / 2 < 2 ^ 53).
  { split; [apply Z.div_le_lower_bound; lia|apply Z.div_lt_upper_bound; lia]. }
  pose proof (round_nearest_even_bounds (q / 2) l') as Hb.
  set (m1 := round_nearest_even (q / 2) l') in *.
  destruct (m1 =? 9007199254740992) eqn:E.
  - apply Z.eqb_eq in E. rewrite E.
    replace (fexp 53 1024 (Zdigits2 9007199254740992 + (e + 1)) - (e + 1)) with 1
      by (unfold fexp, emin; change (Zdigits2 9007199254740992) with 54; lia).
    simpl. change (1024 - 53) with 971. replace (e + 1 + 1) with (e + 2) by lia.
    destruct (e + 2 <=? 971) eqn:E1; [reflexivity|lia].
  - apply Z.eqb_neq in E.
    rewrite (Zdigits2_unique m1 53) by (powers; lia).
    replace (fexp 53 1024 (53 + (e + 1)) - (e + 1)) with 0
      by (unfold fexp, emin; lia).
    simpl. change (1024 - 53) with 971. destruct m1 as [|p|p]; try lia.
    destruct (e + 1 <=? 971) eqn:E1; [reflexivity|lia].
Qed.

Lemma new_location_low (n r : Z) :
  0 <= r -> 2 * r < n ->
  new_location n r = loc_Exact \/ new_location n r = loc_Inexact Lt.
Proof.
  intros Hr Hn. unfold new_location, new_location_even, new_location_odd.
  destruct (Z.even n); destruct (r =? 0); auto; right.
  - rewrite (proj2 (Z.compare_lt_iff _ _)) by lia. reflexivity.
  - destruct (Z.compare_spec (2 * r + 1) n); try reflexivity; lia.
Qed.

Lemma div_core (mx my : positive) (ex ey : Z) :
  2 ^ 52 <= Zpos mx < 2 ^ 53 -> 2 ^ 52 <= Zpos my < 2 ^ 53 ->
  -52 <= ex <= 0 -> -52 <= ey <= 0 ->
  SFdiv_core_binary 53 1024 (Zpos mx) ex (Zpos my) ey =
    (Zpos mx * 2 ^ 53 / Zpos my, ex - ey - 53,
     new_location (Zpos my) ((Zpos mx * 2 ^ 53) mod Zpos my)).
Proof.
  intros Hx Hy Hex Hey. unfold SFdiv_core_binary.
  rewrite (Zdigits2_unique (Zpos mx) 53), (Zdigits2_unique (Zpos my) 53)
    by (simpl; lia).
  replace (Z.min (fexp 53 1024 (53 + ex - (53 + ey))) (ex - ey))
    with (ex - ey - 53) by (unfold fexp, emin; lia).
  replace (ex - ey - (ex - ey - 53)) with 53 by lia.
  cbv beta iota zeta.
  rewrite Z.shiftl_mul_pow2 by lia.
  unfold Z.div, Z.modulo.
  destruct (Z.div_eucl (Zpos mx * 2 ^ 53) (Zpos my)). reflexivity.
Qed.

Lemma of_int_small (n : Z) :
  0 < n < 2 ^ 53 ->
  exists (m : positive) (e : Z),
    Float.of_int n = S754_finite false m e /\
    2 ^ 52 <= Zpos m < 2 ^ 53 /\ -52 <= e <= 0 /\ Zpos m = n * 2 ^ (- e).
Proof.
  intros Hn. destruct n as [|p|p]; try lia.
  unfold Float.of_int, Float.prec, Float.emax, binary_normalize, binary_round.
  pose proof (Zdigits2_log2 (Zpos p) ltac:(lia)) as Hd. simpl Zdigits2 in Hd.
  pose proof (Z.log2_spec (Zpos p) ltac:(lia)) as Hlog.
  assert (Hlt : Z.log2 (Zpos p) < 53).
  { apply Z.log2_lt_pow2; lia. }
  pose proof (Z.log2_nonneg (Zpos p)) as Hl0.
  set (d := Zpos (digits2_pos p)) in *.
  replace (fexp 53 1024 (d + 0)) with (d - 53) by (unfold fexp, emin; lia).
  assert (Hpow : Zpos p * 2 ^ (53 - d) < 2 ^ 53 /\ 2 ^ 52 <= Zpos p * 2 ^ (53 - d)).
  { replace (2 ^ 53) with (2 ^ d * 2 ^ (53 - d))
      by (rewrite <- Z.pow_add_r by lia; f_equal; lia).
    replace (2 ^ 52) with (2 ^ (d - 1) * 2 ^ (53 - d))
      by (rewrite <- Z.pow_add_r by lia; f_equal; lia).
    assert (0 < 2 ^ (53 - d)) by (apply Z.pow_pos_nonneg; lia).
    replace (Z.succ (Z.log2 (Zpos p))) with d in Hlog by lia.
    replace (Z.log2 (Zpos p)) with (d - 1) in Hlog by lia.
    split; nia. }
  unfold shl_align. replace (d - 53 - 0) with (d - 53) by lia.
  destruct (d - 53) as [|k|k] eqn:Hk; try lia.
  - assert (Hd53 : d = 53) by lia. rewrite Hd53 in Hpow.
    change (2 ^ (53 - 53)) with 1 in Hpow. powers.
    rewrite round_aux_53 by (powers; lia).
    cbn [round_nearest_even]. powers.
    destruct (Zpos p =? 9007199254740992) eqn:E; [apply Z.eqb_eq in E; lia|].
    exists p, 0. change (2 ^ (- 0)) with 1. cbn [Z.to_pos].
    split; [reflexivity|]. repeat split; lia.
  - assert (Hkd : 53 - d = Zpos k) by lia. rewrite Hkd in Hpow.
    pose proof (iter_xO_pow p k) as Hiter.
    set (m := Pos.iter xO p k) in *. powers.
    rewrite round_aux_53 by (powers; lia).
    cbn [round_nearest_even]. powers.
    destruct (Zpos m =? 9007199254740992) eqn:E; [apply Z.eqb_eq in E; lia|].
    exists m, (Zneg k). change (- Z.neg k) with (Z.pos k). cbn [Z.to_pos].
    split; [reflexivity|]. repeat split; lia.
Qed.

Lemma not_above_lit (m : positive) (e : Z) :
  e < -53 \/ (e = -53 /\ Zpos m <= 8827055269646172) ->
  SFltb Float.lit_0_98 (S754_finite false m e) = false.
Proof.
  intros H. unfold SFltb, SFcompare, Float.lit_0_98.
  destruct (Z.compare_spec (-53) e) as [He|He|He]; try reflexivity; try lia.
  fold (Pos.compare 8827055269646172 m).
  destruct (Pos.compare_spec 8827055269646172 m); try reflexivity. lia.
Qed.

Lemma quotient_below_threshold (mx my : positive) (ex ey f t : Z) :
  2 ^ 52 <= Zpos mx < 2 ^ 53 -> 2 ^ 52 <= Zpos my < 2 ^ 53 ->
  -52 <= ex <= 0 -> -52 <= ey <= 0 ->
  Zpos mx = f * 2 ^ (- ex) -> Zpos my = t * 2 ^ (- ey) ->
  0 < f -> 0 < t -> 50 * f <= 49 * t ->
  SFltb Float.lit_0_98
    (SFdiv 53 1024 (S754_finite false mx ex) (S754_finite false my ey)) = false.
Proof.
  intros Hx Hy Hex Hey HX HY Hf Ht Hft.
  unfold SFdiv. rewrite div_core by assumption. cbn [xorb].
  change (2 ^ 53) with 9007199254740992 in *.
  change (2 ^ 52) with 4503599627370496 in *.
  set (X := Zpos mx) in *. set (Y := Zpos my) in *.
  pose proof (Z.div_mod (X * 9007199254740992) Y ltac:(lia)) as Hdm.
  pose proof (Z.mod_pos_bound (X * 9007199254740992) Y ltac:(lia)) as Hr.
  set (q := X * 9007199254740992 / Y) in *.
  set (r := (X * 9007199254740992) mod Y) in *.
  assert (Hq : 4503599627370496 <= q < 18014398509481984) by nia.
  assert (HA : 0 < 2 ^ (- ex)) by (apply Z.pow_pos_nonneg; lia).
  assert (HB : 0 < 2 ^ (- ey)) by (apply Z.pow_pos_nonneg; lia).
  destruct (Z.lt_trichotomy ex ey) as [Hlt|[Heq|Hgt]].
  - (* the dividend has fewer digits than the divisor *)
    assert (HAB : 2 ^ (- ex) = 2 ^ (- ey) * 2 ^ (ey - ex)).
    { rewrite <- Z.pow_add_r by lia. f_equal. lia. }
    assert (Hk : 2 <= 2 ^ (ey - ex)).
    { change 2 with (2 ^ 1) at 1. apply Z.pow_le_mono_r; lia. }
    assert (Hk4 : ey - ex = 1 \/ ey - ex >= 2) by lia.
    destruct (Z_lt_le_dec q 9007199254740992) as [Hq53|Hq54].
    + rewrite round_aux_53
        by (change (2 ^ 53) with 9007199254740992;
            change (2 ^ 52) with 4503599627370496; lia).
      change (2 ^ 53) with 9007199254740992.
      change (Z.to_pos (2 ^ 52)) with 4503599627370496%positive.
      pose proof (round_nearest_even_bounds q (new_location Y r)) as Hb.
      destruct (_ =? 9007199254740992) eqn:E; apply not_above_lit; [lia|].
      left. lia.
    + pose proof (round_aux_54 q (ex - ey - 53) (new_location Y r)) as Hround.
      cbv zeta in Hround. rewrite Hround
        by (change (2 ^ 53) with 9007199254740992;
            change (2 ^ 54) with 18014398509481984; lia).
      clear Hround.
      change (2 ^ 53) with 9007199254740992.
      change (Z.to_pos (2 ^ 52)) with 4503599627370496%positive.
      set (l' := loc_of_shr_record (shr_1 (shr_record_of_loc q (new_location Y r)))).
      pose proof (round_nearest_even_bounds (q / 2) l') as Hb.
      assert (Hq2 : 4503599627370496 <= q / 2 < 9007199254740992).
      { split; [apply Z.div_le_lower_bound; lia|apply Z.div_lt_upper_bound; lia]. }
      destruct Hk4 as [Hk1|Hk2].
      * (* the exponents differ by one: the result has the exponent of 0.98 *)
        rewrite Hk1 in HAB. change (2 ^ 1) with 2 in HAB.
        assert (HXY : 25 * X <= 49 * Y).
        { pose proof (Z.mul_le_mono_nonneg_r (50 * f) (49 * t) (2 ^ (- ey))
                        ltac:(lia) Hft).
          rewrite HX, HY, HAB. lia. }
        assert (Hq2M : q <= 2 * 8827055269646172) by nia.
        assert (Hhalf : q / 2 <= 8827055269646172).
        { apply Z.div_le_upper_bound; lia. }
        assert (Hm1 : round_nearest_even (q / 2) l' <= 8827055269646172).
        { destruct (Z_lt_le_dec (q / 2) 8827055269646172) as [|Hge]; [lia|].
          assert (Hqeq : q = 2 * 8827055269646172).
          { pose proof (Z.div_mod q 2 ltac:(lia)).
            pose proof (Z.mod_pos_bound q 2 ltac:(lia)). lia. }
          assert (Heven : Z.even q = true) by (rewrite Hqeq; reflexivity).
          destruct (shr_1_spec q (new_location Y r) ltac:(lia)) as [_ Hl].
          fold l' in Hl. destruct (Hl Heven) as [-> | ->]; simpl; lia. }
        destruct (_ =? 9007199254740992) eqn:E;
          [apply Z.eqb_eq in E; lia|].
        apply not_above_lit. right. split; [lia|].
        rewrite Z2Pos.id by lia. exact Hm1.
      * destruct (_ =? 9007199254740992) eqn:E; apply not_above_lit; lia.
  - (* same number of digits: the result has the exponent of 0.98 *)
    subst ey.
    assert (HXY : 50 * X <= 49 * Y).
    { pose proof (Z.mul_le_mono_nonneg_r (50 * f) (49 * t) (2 ^ (- ex))
                    ltac:(lia) Hft).
      rewrite HX, HY. lia. }
    assert (HqM : q <= 8827055269646172) by nia.
    rewrite round_aux_53
      by (change (2 ^ 53) with 9007199254740992;
          change (2 ^ 52) with 4503599627370496; lia).
    change (2 ^ 53) with 9007199254740992.
    assert (Hm1 : round_nearest_even q (new_location Y r) <= 8827055269646172).
    { pose proof (round_nearest_even_bounds q (new_location Y r)) as Hb.
      destruct (Z_lt_le_dec q 8827055269646172) as [|Hge]; [lia|].
      assert (Hqeq : q = 8827055269646172) by lia.
      assert (Hr2 : 2 * r < Y) by nia.
      destruct (new_location_low Y r ltac:(lia) Hr2) as [-> | ->]; simpl; lia. }
    destruct (_ =? 9007199254740992) eqn:E; [apply Z.eqb_eq in E; lia|].
    apply not_above_lit. right. split; [lia|].
    pose proof (round_nearest_even_bounds q (new_location Y r)) as Hb.
    rewrite Z2Pos.id by lia. exact Hm1.
  - (* the dividend cannot have more digits than the divisor *)
    exfalso.
    assert (HBA : 2 ^ (- ey) = 2 ^ (- ex) * 2 ^ (ex - ey)).
    { rewrite <- Z.pow_add_r by lia. f_equal. lia. }
    assert (Hk : 2 <= 2 ^ (ex - ey)).
    { change 2 with (2 ^ 1) at 1. apply Z.pow_le_mono_r; lia. }
    assert (Hft' : f < t) by lia.
    assert (H2X : 2 * X <= Y).
    { rewrite HX, HY, HBA.
      pose proof (Z.mul_le_mono_nonneg_r f t (2 ^ (- ex)) ltac:(lia) ltac:(lia)).
      pose proof (Z.mul_le_mono_nonneg_l 2 (2 ^ (ex - ey)) (t * 2 ^ (- ex))
                    ltac:(nia) Hk).
      lia. }
    lia.
Qed.

(** Below 2^53 bytes the test of line 118 passes only when the exact ratio
    of the reported values is above 0.98: conversion to a double is exact
    there and the quotient is rounded once, to the nearest double. *)
Lemma above_threshold_exact (free total : Z) :
  0 <= free -> 0 < total < 2 ^ 53 ->
  above_threshold free total = true -> 49 * total < 50 * free.
Proof.
  intros Hfree Htotal Habove.
  destruct (Z_lt_le_dec (49 * total) (50 * free)) as [|Hle]; [assumption|].
  exfalso. revert Habove.
  unfold above_threshold, Float.gt, Float.div, Float.prec, Float.emax.
  destruct (Z.eq_dec free 0) as [->|Hne].
  - destruct (of_int_small total Htotal) as (my & ey & -> & _).
    discriminate.
  - destruct (of_int_small free ltac:(lia)) as (mx & ex & -> & Hx & Hex & HX).
    destruct (of_int_small total Htotal) as (my & ey & -> & Hy & Hey & HY).
    rewrite (quotient_below_threshold mx my ex ey free total) by (auto; lia).
    discriminate.
Qed.

(** The boundary: a device with exactly 98% of its memory free fails the
    test, whatever its size below 2^53 bytes. *)
Lemma exactly_98_percent_excluded (free total : Z) :
  0 <= free -> 0 < total < 2 ^ 53 -> 50 * free = 49 * total ->
  above_threshold free total = false.
Proof.
  intros Hfree Htotal Heq.
  destruct (above_threshold free total) eqn:E; [|reflexivity].
  apply above_threshold_exact in E; lia.
Qed.

(** The literal is the double nearest to 98/100. *)
Lemma lit_0_98_nearest :
  Float.true_div 98 100 = Return Float.lit_0_98.
Proof. reflexivity. Qed.

(** From 2^53 bytes on both conversions round, and the test can pass on a
    ratio that is not above 0.98. *)
Lemma above_threshold_rounds :
  50 * 11636447168623459 <= 49 * 11873925682268836 /\
  above_threshold 11636447168623459 11873925682268836 = true.
Proof. split; [lia|vm_compute; reflexivity]. Qed.

(** ** The threshold test, exactly *)

Lemma new_location_cases (n r : Z) :
  0 <= r < n ->
  (r = 0 /\ new_location n r = loc_Exact) \/
  (0 < r /\ 2 * r < n /\ new_location n r = loc_Inexact Lt) \/
  (2 * r = n /\ new_location n r = loc_Inexact Eq) \/
  (n < 2 * r /\ new_location n r = loc_Inexact Gt).
Proof.
  intros Hr. unfold new_location.
  destruct (Z.even n) eqn:En;
    [unfold new_location_even|unfold new_location_odd];
    (destruct (Z.eqb_spec r 0) as [->|Hne]; [left; split; reflexivity|right]).
  - destruct (Z.compare_spec (2 * r) n).
    + right; left. split; [lia|reflexivity].
    + left. split; [lia|split; [lia|reflexivity]].
    + right; right. split; [lia|reflexivity].
  - assert (Hodd : 2 * r <> n).
    { intros <-. rewrite Z.even_mul in En. discriminate. }
    destruct (Z.compare_spec (2 * r + 1) n).
    + left. split; [lia|split; [lia|reflexivity]].
    + left. split; [lia|split; [lia|reflexivity]].
    + right; right. split; [lia|reflexivity].
Qed.

Lemma shr_1_loc (q : Z) (l : location) :
  0 < q ->
  loc_of_shr_record (shr_1 (shr_record_of_loc q l)) =
    match Z.odd q, l with
    | false, loc_Exact => loc_Exact
    | false, loc_Inexact _ => loc_Inexact Lt
    | true, loc_Exact => loc_Inexact Eq
    | true, loc_Inexact _ => loc_Inexact Gt
    end.
Proof.
  intros Hq. destruct q as [|p|p]; try lia.
  destruct p as [p|p|]; destruct l as [|[]]; reflexivity.
Qed.

(** Rounding a quotient [q + r / y] to nearest, ties to even, against an
    even mantissa [m]. *)
Lemma round_above_even (q r y m : Z) :
  0 <= r < y -> Z.even m = true ->
  (m < round_nearest_even q (new_location y r) <->
   (2 * m + 1) * y < 2 * (q * y + r)).
Proof.
  intros Hr Hm.
  pose proof (round_nearest_even_bounds q (new_location y r)) as Hb.
  destruct (Z.lt_trichotomy q m) as [Hlt|[->|Hgt]].
  - split; [lia|nia].
  - destruct (new_location_cases y r Hr)
      as [(H0 & ->)|[(H0 & H1 & ->)|[(H0 & ->)|(H0 & ->)]]];
      cbn [round_nearest_even]; rewrite ?Hm; split; intros; lia.
  - split; [nia|lia].
Qed.

(** The same after the quotient was shifted right by one digit. *)
Lemma round_above_even_shifted (q r y m : Z) :
  0 < q -> 0 <= r < y -> Z.even m = true ->
  (m < round_nearest_even (q / 2)
         (loc_of_shr_record (shr_1 (shr_record_of_loc q (new_location y r))))
   <-> (2 * m + 1) * y < q * y + r).
Proof.
  intros Hq Hr Hm. rewrite shr_1_loc by assumption.
  pose proof (Z.div_mod q 2 ltac:(lia)) as Hdm.
  pose proof (Z.mod_pos_bound q 2 ltac:(lia)) as Hmod.
  rewrite Zmod_odd in Hdm, Hmod.
  set (h := q / 2) in *.
  assert (Hbits : forall l,
             h <= round_nearest_even h l <= h + 1).
  { intros l. apply round_nearest_even_bounds. }
  destruct (Z.lt_trichotomy h m) as [Hlt|[Heq|Hgt]].
  - split; [intros H; specialize (Hbits (match Z.odd q, new_location y r with
                                         | false, loc_Exact => loc_Exact
                                         | false, loc_Inexact _ => loc_Inexact Lt
                                         | true, loc_Exact => loc_Inexact Eq
                                         | true, loc_Inexact _ => loc_Inexact Gt
                                         end)); lia|].
    destruct (Z.odd q); nia.
  - subst m.
    destruct (new_location_cases y r Hr)
      as [(H0 & ->)|[(H0 & H1 & ->)|[(H0 & ->)|(H0 & ->)]]];
      destruct (Z.odd q); cbn [round_nearest_even]; rewrite ?Hm;
      split; intros; nia.
  - split; [intros _; destruct (Z.odd q); nia|].
    intros _.
    specialize (Hbits (match Z.odd q, new_location y r with
                       | false, loc_Exact => loc_Exact
                       | false, loc_Inexact _ => loc_Inexact Lt
                       | true, loc_Exact => loc_Inexact Eq
                       | true, loc_Inexact _ => loc_Inexact Gt
                       end)). lia.
Qed.

Lemma above_lit_iff (m : positive) (e : Z) :
  SFltb Float.lit_0_98 (S754_finite false m e) = true <->
  -53 < e \/ (e = -53 /\ 8827055269646172 < Zpos m).
Proof.
  unfold SFltb, SFcompare, Float.lit_0_98.
  destruct (Z.compare_spec (-53) e) as [He|He|He].
  - fold (Pos.compare 8827055269646172 m).
    destruct (Pos.compare_spec 8827055269646172 m) as [Hm|Hm|Hm].
    + subst m. split; [discriminate|]. intros [H|[_ H]]; lia.
    + apply Pos2Z.pos_lt_pos in Hm.
      split; [intros _; right; split; [lia|exact Hm]|intros _; exact eq_refl].
    + apply Pos2Z.pos_lt_pos in Hm.
      split; [discriminate|]. intros [H|[_ H]]; lia.
  - split; [intros _; left; exact He|intros _; exact eq_refl].
  - split; [discriminate|]. intros [H|[H _]]; lia.
Qed.

Lemma mul_lt_cancel (a b c : Z) : 0 < c -> a * c < b * c -> a < b.
Proof. intros Hc H. apply (proj2 (Z.mul_lt_mono_pos_r c a b Hc)), H. Qed.

Lemma mul_le_cancel (a b c : Z) : 0 < c -> a * c <= b * c -> a <= b.
Proof. intros Hc H. apply (proj2 (Z.mul_le_mono_pos_r a b c Hc)), H. Qed.

Lemma quotient_above_iff (mx my : positive) (ex ey f t : Z) :
  2 ^ 52 <= Zpos mx < 2 ^ 53 -> 2 ^ 52 <= Zpos my < 2 ^ 53 ->
  -52 <= ex <= 0 -> -52 <= ey <= 0 ->
  Zpos mx = f * 2 ^ (- ex) -> Zpos my = t * 2 ^ (- ey) ->
  0 < f -> 0 < t ->
  (SFltb Float.lit_0_98
     (SFdiv 53 1024 (S754_finite false mx ex) (S754_finite false my ey)) = true
   <-> 17654110539292345 * t < f * 18014398509481984).
Proof.
  intros Hx Hy Hex Hey HX HY Hf Ht.
  unfold SFdiv. rewrite div_core by assumption. cbn [xorb]. powers.
  set (X := Zpos mx) in *. set (Y := Zpos my) in *.
  pose proof (Z.div_mod (X * 9007199254740992) Y ltac:(lia)) as Hdm.
  pose proof (Z.mod_pos_bound (X * 9007199254740992) Y ltac:(lia)) as Hr.
  set (q := X * 9007199254740992 / Y) in *.
  set (r := (X * 9007199254740992) mod Y) in *.
  assert (Hq : 4503599627370496 <= q < 18014398509481984) by nia.
  assert (HA : 0 < 2 ^ (- ex)) by (apply Z.pow_pos_nonneg; lia).
  assert (HB : 0 < 2 ^ (- ey)) by (apply Z.pow_pos_nonneg; lia).
  set (A := 2 ^ (- ex)) in *. set (B := 2 ^ (- ey)) in *.
  (* how the two scalings compare *)
  assert (Hscale :
    (ex = ey /\ A = B) \/
    (ex - ey = -1 /\ A = 2 * B) \/
    (ex - ey <= -2 /\ exists K, 4 <= K /\ A = B * K) \/
    (1 <= ex - ey /\ exists K, 2 <= K /\ B = A * K)).
  { destruct (Z.lt_trichotomy ex ey) as [Hlt|[Heq|Hgt]].
    - assert (HAB : A = B * 2 ^ (ey - ex)).
      { unfold A, B. rewrite <- Z.pow_add_r by lia. f_equal. lia. }
      destruct (Z.eq_dec (ey - ex) 1) as [H1|H1].
      + right; left. rewrite H1 in HAB. change (2 ^ 1) with 2 in HAB. lia.
      + right; right; left. split; [lia|]. exists (2 ^ (ey - ex)).
        split; [|exact HAB]. change 4 with (2 ^ 2).
        apply Z.pow_le_mono_r; lia.
    - left. split; [exact Heq|]. unfold A, B. rewrite Heq. reflexivity.
    - right; right; right. split; [lia|]. exists (2 ^ (ex - ey)). split.
      + change 2 with (2 ^ 1) at 1. apply Z.pow_le_mono_r; lia.
      + unfold A, B. rewrite <- Z.pow_add_r by lia. f_equal. lia. }
  assert (HevenM : Z.even 8827055269646172 = true) by reflexivity.
  destruct (Z_lt_le_dec q 9007199254740992) as [Hq53|Hq54].
  - (* the quotient has 53 digits: the dividend mantissa is the smaller *)
    assert (HXY : X < Y) by nia.
    rewrite round_aux_53 by (powers; lia). powers.
    change (Z.to_pos 4503599627370496) with 4503599627370496%positive.
    pose proof (round_nearest_even_bounds q (new_location Y r)) as Hb.
    pose proof (round_above_even q r Y 8827055269646172 Hr HevenM) as Hround.
    set (m1 := round_nearest_even q (new_location Y r)) in *.
    replace (2 * (q * Y + r)) with (X * 18014398509481984) in Hround by lia.
    assert (Hiff : (SFltb Float.lit_0_98
                      (if m1 =? 9007199254740992
                       then S754_finite false 4503599627370496 (ex - ey - 53 + 1)
                       else S754_finite false (Z.to_pos m1) (ex - ey - 53)) = true)
                   <-> (0 <= ex - ey /\ (ex = ey -> 8827055269646172 < m1))).
    { destruct (m1 =? 9007199254740992) eqn:E; rewrite above_lit_iff;
        [apply Z.eqb_eq in E|apply Z.eqb_neq in E; rewrite Z2Pos.id by lia].
      - split; [intros [H|[H1 H2]]; lia|intros [H1 H2]; left; lia].
      - split; [intros [H|[H1 H2]]; lia|].
        intros [H1 H2]. destruct (Z.eq_dec ex ey) as [H3|H3]; [right|left]; lia. }
    rewrite Hiff. clear Hiff.
    destruct Hscale as [[He HAB]|[[He HAB]|[[He (K & HK & HAB)]|[He (K & HK & HAB)]]]].
    + rewrite HX, HY, HAB in Hround. split.
      * intros [_ H]. apply (mul_lt_cancel _ _ B HB).
        apply H, Hround in He. lia.
      * intros H. split; [lia|]. intros _. apply Hround.
        apply (proj1 (Z.mul_lt_mono_pos_r B _ _ HB)) in H. lia.
    + split; [intros [H _]; lia|]. intros H. exfalso.
      rewrite HX, HY, HAB in HXY.
      assert (2 * f < t) by (apply (mul_lt_cancel _ _ B HB); lia). lia.
    + split; [intros [H _]; lia|]. intros H. exfalso.
      rewrite HX, HY, HAB in HXY.
      assert (f * K < t) by (apply (mul_lt_cancel _ _ B HB); lia).
      pose proof (Z.mul_le_mono_nonneg_l 4 K f ltac:(lia) HK). lia.
    + split; [intros _|intros _; split; lia].
      rewrite HX in Hx. rewrite HY, HAB in Hy.
      assert (t * K < 2 * f) by (apply (mul_lt_cancel _ _ A HA); lia).
      pose proof (Z.mul_le_mono_nonneg_l 2 K t ltac:(lia) HK). lia.
  - (* the quotient has 54 digits: the dividend mantissa is not smaller *)
    assert (HXY : Y <= X) by nia.
    pose proof (round_aux_54 q (ex - ey - 53) (new_location Y r)) as Hr54.
    cbv zeta in Hr54. rewrite Hr54 by (powers; lia). clear Hr54. powers.
    change (Z.to_pos 4503599627370496) with 4503599627370496%positive.
    pose proof (round_above_even_shifted q r Y 8827055269646172
                  ltac:(lia) Hr HevenM) as Hround.
    set (l' := loc_of_shr_record (shr_1 (shr_record_of_loc q (new_location Y r))))
      in *.
    pose proof (round_nearest_even_bounds (q / 2) l') as Hb.
    assert (Hq2 : 4503599627370496 <= q / 2 < 9007199254740992).
    { split; [apply Z.div_le_lower_bound; lia|apply Z.div_lt_upper_bound; lia]. }
    set (m1 := round_nearest_even (q / 2) l') in *.
    replace (q * Y + r) with (X * 9007199254740992) in Hround by lia.
    assert (Hiff : (SFltb Float.lit_0_98
                      (if m1 =? 9007199254740992
                       then S754_finite false 4503599627370496 (ex - ey - 53 + 2)
                       else S754_finite false (Z.to_pos m1) (ex - ey - 53 + 1)) = true)
                   <-> (-1 <= ex - ey /\ (ex - ey = -1 -> 8827055269646172 < m1))).
    { destruct (m1 =? 9007199254740992) eqn:E; rewrite above_lit_iff;
        [apply Z.eqb_eq in E|apply Z.eqb_neq in E; rewrite Z2Pos.id by lia].
      - split; [intros [H|[H1 H2]]; lia|intros [H1 H2]; left; lia].
      - split; [intros [H|[H1 H2]]; lia|].
        intros [H1 H2].
        destruct (Z.eq_dec (ex - ey) (-1)) as [H3|H3]; [right|left]; lia. }
    rewrite Hiff. clear Hiff.
    destruct Hscale as [[He HAB]|[[He HAB]|[[He (K & HK & HAB)]|[He (K & HK & HAB)]]]].
    + split; [intros _|intros _; split; lia].
      rewrite HX, HY, HAB in HXY.
      assert (t <= f) by (apply (mul_le_cancel _ _ B HB); lia). lia.
    + rewrite HX, HY, HAB in Hround. split.
      * intros [_ H]. apply (mul_lt_cancel _ _ B HB).
        apply H, Hround in He. lia.
      * intros H. split; [lia|]. intros _. apply Hround.
        apply (proj1 (Z.mul_lt_mono_pos_r B _ _ HB)) in H. lia.
    + split; [intros [H _]; lia|]. intros H. exfalso.
      rewrite HX in Hx. rewrite HY in Hy. rewrite HAB in Hx.
      assert (f * K < 2 * t) by (apply (mul_lt_cancel _ _ B HB); lia).
      pose proof (Z.mul_le_mono_nonneg_l 4 K f ltac:(lia) HK). lia.
    + split; [intros _|intros _; split; lia].
      rewrite HX, HY, HAB in HXY.
      assert (t * K <= f) by (apply (mul_le_cancel _ _ A HA); lia).
      pose proof (Z.mul_le_mono_nonneg_l 2 K t ltac:(lia) HK). lia.
Qed.

(** Below 2^53 bytes the test of line 118 is a comparison of integers: the
    quotient rounds to a double above [0.98] exactly when [free / total] is
    above the midpoint of the double [0.98] and the next double. *)
Lemma above_threshold_iff (free total : Z) :
  0 <= free < 2 ^ 53 -> 0 < total < 2 ^ 53 ->
  (above_threshold free total = true <->
   17654110539292345 * total < free * 18014398509481984).
Proof.
  intros Hfree Htotal.
  unfold above_threshold, Float.gt, Float.div, Float.prec, Float.emax.
  destruct (Z.eq_dec free 0) as [->|Hne].
  - destruct (of_int_small total Htotal) as (my & ey & -> & _).
    split; [discriminate|lia].
  - destruct (of_int_small free ltac:(lia)) as (mx & ex & -> & Hx & Hex & HX).
    destruct (of_int_small total Htotal) as (my & ey & -> & Hy & Hey & HY).
    apply (quotient_above_iff mx my ex ey free total); auto; lia.
Qed.

(** ** Ranges and filters *)

Lemma in_range (n k : Z) : In k (range n) <-> 0 <= k < n.
Proof.
  unfold range. rewrite in_map_iff. split.
  - intros (j & <- & Hj). apply in_seq in Hj. lia.
  - intros Hk. exists (Z.to_nat k). split; [lia|]. apply in_seq. lia.
Qed.

Lemma of_nat_seq_sorted (a n : nat) :
  StronglySorted Z.lt (map Z.of_nat (seq a n)).
Proof.
  revert a. induction n as [|n IH]; intros a; simpl; constructor.
  - apply IH.
  - apply List.Forall_forall. intros x Hx.
    apply in_map_iff in Hx. destruct Hx as (j & <- & Hj).
    apply in_seq in Hj. lia.
Qed.

Lemma filter_sorted (f : Z -> bool) (l : list Z) :
  StronglySorted Z.lt l -> StronglySorted Z.lt (List.filter f l).
Proof.
  induction 1 as [|x l Hl IH Hx]; simpl; [constructor|].
  destruct (f x); [|exact IH].
  constructor; [exact IH|].
  apply List.Forall_forall. intros y Hy.
  apply filter_In in Hy. destruct Hy as [Hy _].
  rewrite List.Forall_forall in Hx. apply Hx, Hy.
Qed.

Lemma in_available (cuda : driver) (k : Z) :
  In k (available cuda) <->
  count_status cuda = CUDA_SUCCESS /\ 0 <= k < count cuda /\ qualifies cuda k = true.
Proof.
  unfold available.
  destruct (count_status cuda =? CUDA_SUCCESS) eqn:E.
  - apply Z.eqb_eq in E. rewrite filter_In, in_range. tauto.
  - apply Z.eqb_neq in E. simpl. tauto.
Qed.

(** A run from fresh locals returns [expected h] whenever it returns. *)
Lemma cuda_devices_returns (h : host) (s0 : list native_call)
    (r0 : list log_record) (l : list Z) (s' : state) :
  cuda_devices h (fresh s0 r0) = (Return l, s') ->
  l = expected h /\ raises h = None /\ trace s' = s0 ++ native_calls h.
Proof.
  intros Hrun.
  destruct (cuda_devices_spec h (fresh s0 r0)) as (s1 & Hspec & Htrace).
  rewrite Hrun in Hspec. simpl in *.
  destruct (raises h); inversion Hspec; subst. auto.
Qed.

Lemma first_exn_none (cuda : driver) (indices : list Z) :
  (forall i, In i indices -> scan_exn cuda i = None) ->
  first_exn cuda indices = None.
Proof.
  induction indices as [|i rest IH]; simpl; intros H; [reflexivity|].
  rewrite (H i) by auto. apply IH. auto.
Qed.

Lemma scan_raises_none (cuda : driver) :
  strings_decode cuda -> totals_nonzero cuda -> scan_raises cuda = None.
Proof.
  intros [Hcount Hs] Ht. unfold scan_raises.
  destruct (count_status cuda =? CUDA_SUCCESS) eqn:E.
  - apply first_exn_none. intros i Hi. apply in_range in Hi.
    unfold scan_exn. destruct (verdict_of cuda i) as [name code|free total] eqn:Hv.
    + unfold decode_exn.
      destruct (Hs i name code Hi Hv) as [m ->]. reflexivity.
    + destruct (total =? 0) eqn:E0; [|reflexivity].
      apply Z.eqb_eq in E0. exfalso. exact (Ht i free total Hi Hv E0).
  - apply Z.eqb_neq in E. unfold decode_exn.
    destruct (Hcount E) as [m ->]. reflexivity.
Qed.

(** ** The claims on [cuda_devices]: the threshold *)




(** A device that fails the test of line 118 is not in the list. *)
Lemma below_threshold_not_reported (h : host) (cuda : driver)
    (s0 : list native_call) (r0 : list log_record) (l : list Z) (s' : state)
    (k free total : Z) :
  cuda_devices h (fresh s0 r0) = (Return l, s') ->
  find_cuda h libnames = Some cuda ->
  verdict_of cuda k = Measured free total ->
  above_threshold free total = false ->
  ~ In k l.
Proof.
  intros Hrun Hfind Hv Ha Hk.
  apply cuda_devices_returns in Hrun. destruct Hrun as (-> & _ & _).
  unfold expected in Hk. rewrite Hfind in Hk.
  apply in_available in Hk. destruct Hk as (_ & _ & Hq).
  unfold qualifies in Hq. rewrite Hv, Ha, andb_false_r in Hq. discriminate.
Qed.

(** The boundary: one device with exactly 98 of 100 bytes free is not
    reported. *)
Example at_threshold_result :
  fst (cuda_devices (host_of at_threshold) start) = Return [].
Proof. vm_compute. reflexivity. Qed.

(** ** The claims on [cuda_devices] *)

(** C8. If none of the three library names loads, [cuda_devices] returns the
    empty list and makes no native call: the trace of native calls and the
    log are left as they were, and so they are through the cached function,
    which stores the empty list. *)
Theorem no_library_no_native_call (h : host) (s0 : list native_call)
    (r0 : list log_record) :
  (forall libname, In libname libnames -> CDLL h libname = None) ->
  cuda_devices h (fresh s0 r0) = (Return [], fresh s0 r0) /\
  native_calls h = [] /\
  forall p, cache p = None ->
    cuda_devices_cached h p =
      (Return (length (heap p)),
       {| heap := heap p ++ [[]]; cache := Some (length (heap p));
          calls := calls p; records := records p |}).
Proof.
  intros Hnone.
  assert (Hfind : find_cuda h libnames = None).
  { unfold libnames in *. simpl.
    rewrite !Hnone by (simpl; auto 10). reflexivity. }
  assert (Hrun : forall s, cuda_devices h s = (Return (ret s), s)).
  { intros s. unfold cuda_devices. rewrite Hfind. reflexivity. }
  split; [apply Hrun|]. split.
  - unfold native_calls. rewrite Hfind. reflexivity.
  - intros p Hp. unfold cuda_devices_cached. rewrite Hp, Hrun. reflexivity.
Qed.

Lemma no_library_no_native_call_witness :
  cuda_devices no_driver (fresh [] []) = (Return [], fresh [] []) /\
  native_calls no_driver = [] /\
  forall p, cache p = None ->
    cuda_devices_cached no_driver p =
      (Return (length (heap p)),
       {| heap := heap p ++ [[]]; cache := Some (length (heap p));
          calls := calls p; records := records p |}).
Proof.
  apply (no_library_no_native_call no_driver [] []).
  intros libname _. reflexivity.
Defined.



(** C7. The list [cuda_devices] returns is strictly ascending, and its
    elements are indices of the driver's enumeration, between 0 and the
    device count. *)
Theorem result_is_ascending (h : host) (s0 : list native_call)
    (r0 : list log_record) (l : list Z) (s' : state) :
  cuda_devices h (fresh s0 r0) = (Return l, s') ->
  StronglySorted Z.lt l /\
  forall k, In k l ->
    exists cuda, find_cuda h libnames = Some cuda /\ 0 <= k < count cuda.
Proof.
  intros Hrun. apply cuda_devices_returns in Hrun. destruct Hrun as (-> & _ & _).
  unfold expected. destruct (find_cuda h libnames) as [cuda|].
  - split.
    + unfold available. destruct (_ =? _); [|constructor].
      apply filter_sorted, of_nat_seq_sorted.
    + intros k Hk. apply in_available in Hk. exists cuda. tauto.
  - split; [constructor|]. intros k [].
Qed.

Lemma result_is_ascending_witness :
  StronglySorted Z.lt [0; 3] /\
  forall k, In k [0; 3] ->
    exists cuda, find_cuda (host_of four_devices) libnames = Some cuda /\
                 0 <= k < count cuda.
Proof.
  apply (result_is_ascending (host_of four_devices) [] [] [0; 3]
           (snd (cuda_devices (host_of four_devices) (fresh [] [])))).
  vm_compute. reflexivity.
Defined.

(** The example of the specification: four devices, 0 and 3 qualify. *)
Example four_devices_result :
  fst (cuda_devices (host_of four_devices) start) = Return [0; 3].
Proof. vm_compute. reflexivity. Qed.

(** A run on a driver that has error strings and non-zero totals returns. *)
Lemma well_behaved_run (h : host) (s0 : list native_call)
    (r0 : list log_record) :
  (forall cuda, find_cuda h libnames = Some cuda ->
     strings_decode cuda /\ totals_nonzero cuda) ->
  exists s', cuda_devices h (fresh s0 r0) = (Return (expected h), s').
Proof.
  intros Hok.
  destruct (cuda_devices_spec h (fresh s0 r0)) as (s' & Hrun & _).
  exists s'. rewrite Hrun.
  assert (Hnone : raises h = None).
  { unfold raises. destruct (find_cuda h libnames) as [cuda|]; [|reflexivity].
    destruct (Hok cuda eq_refl). apply scan_raises_none; assumption. }
  rewrite Hnone. reflexivity.
Qed.

(** C4, as amended. On a machine whose driver has an error string that
    decodes for every failing status and reports a non-zero total whenever a
    memory query succeeds, [cuda_devices] raises nothing: it returns a list,
    the list [expected h], which is empty when no library loads or the count
    query fails. *)
Theorem returns_on_well_behaved_driver (h : host) (s0 : list native_call)
    (r0 : list log_record) :
  (forall cuda, find_cuda h libnames = Some cuda ->
     strings_decode cuda /\ totals_nonzero cuda) ->
  (exists s', cuda_devices h (fresh s0 r0) = (Return (expected h), s')) /\
  raises h = None /\
  (find_cuda h libnames = None -> expected h = []) /\
  (forall cuda, find_cuda h libnames = Some cuda ->
     count_status cuda <> CUDA_SUCCESS -> expected h = []).
Proof.
  intros Hok. split; [apply well_behaved_run, Hok|]. split; [|split].
  - unfold raises. destruct (find_cuda h libnames) as [cuda|]; [|reflexivity].
    destruct (Hok cuda eq_refl). apply scan_raises_none; assumption.
  - unfold expected. intros ->. reflexivity.
  - unfold expected, available. intros cuda -> Hne.
    apply Z.eqb_neq in Hne. rewrite Hne. reflexivity.
Qed.

Lemma describe_decodes (code : Z) : exists message, describe code = Text message.
Proof.
  unfold describe. destruct (code =? 2); [eauto|]. destruct (code =? 3); [eauto|].
  destruct (code =? 100); eauto.
Defined.

Lemma three_devices_strings : strings_decode three_devices.
Proof.
  split.
  - intros Hne. exfalso. apply Hne. reflexivity.
  - intros i func_name code _ _. apply describe_decodes.
Defined.

Lemma three_devices_totals : totals_nonzero three_devices.
Proof.
  intros i free total Hi Hv.
  change (count three_devices) with 3 in Hi.
  assert (Hcases : i = 0 \/ i = 1 \/ i = 2) by lia.
  destruct Hcases as [-> | [-> | ->]]; vm_compute in Hv; inversion Hv; lia.
Defined.

Lemma returns_on_well_behaved_driver_witness :
  (exists s',
     cuda_devices (host_of three_devices) (fresh [] [])
     = (Return (expected (host_of three_devices)), s')) /\
  raises (host_of three_devices) = None /\
  (find_cuda (host_of three_devices) libnames = None ->
   expected (host_of three_devices) = []) /\
  (forall cuda, find_cuda (host_of three_devices) libnames = Some cuda ->
     count_status cuda <> CUDA_SUCCESS -> expected (host_of three_devices) = []).
Proof.
  apply (returns_on_well_behaved_driver (host_of three_devices) [] []).
  intros cuda Hfind. vm_compute in Hfind. inversion Hfind; subst. split.
  - apply three_devices_strings.
  - apply three_devices_totals.
Defined.

(** C4, as stated, fails: a memory query that succeeds and reports a total
    of zero makes the division of line 115 raise [ZeroDivisionError], and a
    failing call whose status has no error string makes line 93 raise
    [AttributeError]; both leave [cuda_devices]. *)
Lemma exceptions_escape :
  fst (cuda_devices (host_of zero_total) start) = Raise ZeroDivisionError /\
  fst (cuda_devices (host_of no_string) start) = Raise AttributeError.
Proof. split; vm_compute; reflexivity. Qed.

(** The exception a run raises is exactly [raises h]. *)
Lemma cuda_devices_raises (h : host) (s0 : list native_call)
    (r0 : list log_record) (e : exn) :
  raises h = Some e <-> fst (cuda_devices h (fresh s0 r0)) = Raise e.
Proof.
  destruct (cuda_devices_spec h (fresh s0 r0)) as (s' & Hrun & _).
  rewrite Hrun. simpl. destruct (raises h); split; intros H; inversion H; auto.
Qed.

(** C3, as amended. On a loaded library whose count query succeeds, and
    whose driver has an error string that decodes for every failing status
    the run meets and reports a non-zero total whenever a memory query
    succeeds, the run returns a list; a device [k] with a failing step is
    absent from it, and every other device is in it exactly when its own
    replies qualify it: the list is the list of the qualifying indices below
    the count. *)
Theorem failed_device_is_skipped (h : host) (cuda : driver) (k : Z)
    (func_name : string) (code : Z) (s0 : list native_call)
    (r0 : list log_record) :
  find_cuda h libnames = Some cuda ->
  count_status cuda = CUDA_SUCCESS ->
  strings_decode cuda ->
  totals_nonzero cuda ->
  verdict_of cuda k = Skipped func_name code ->
  exists l s',
    cuda_devices h (fresh s0 r0) = (Return l, s') /\
    ~ In k l /\
    (forall j, j <> k ->
       (In j l <-> 0 <= j < count cuda /\ qualifies cuda j = true)) /\
    l = List.filter (qualifies cuda) (range (count cuda)).
Proof.
  intros Hfind Hcount Hs Ht Hk.
  destruct (well_behaved_run h s0 r0) as [s' Hrun].
  { intros cuda' H'. rewrite Hfind in H'. inversion H'; subst. auto. }
  exists (expected h), s'. split; [exact Hrun|].
  unfold expected. rewrite Hfind.
  split; [|split].
  - rewrite in_available. unfold qualifies. rewrite Hk. intros (_ & _ & H).
    discriminate.
  - intros j _. rewrite in_available. tauto.
  - unfold available. rewrite Hcount. reflexivity.
Qed.

Lemma failed_device_is_skipped_witness :
  exists l s',
    cuda_devices (host_of three_devices) (fresh [] []) = (Return l, s') /\
    ~ In 1 l /\
    (forall j, j <> 1 ->
       (In j l <-> 0 <= j < count three_devices /\
                   qualifies three_devices j = true)) /\
    l = List.filter (qualifies three_devices) (range (count three_devices)).
Proof.
  apply (failed_device_is_skipped (host_of three_devices) three_devices 1
           "cuMemGetInfo" 2 [] []).
  - reflexivity.
  - reflexivity.
  - apply three_devices_strings.
  - apply three_devices_totals.
  - reflexivity.
Defined.

(** The example of the specification: devices 0, 1, 2, the query of device 1
    fails, devices 0 and 2 qualify. *)
Example three_devices_result :
  fst (cuda_devices (host_of three_devices) start) = Return [0; 2].
Proof. vm_compute. reflexivity. Qed.

(** C3, as stated, fails: the failure of one device can abort the scan. On
    [three_devices_no_string] the memory query of device 1 fails and devices
    0 and 2 qualify, as in the example of the specification, but the driver
    writes no error string: [error.value] is [None], line 93 raises
    [AttributeError] while device 1 is being skipped, device 2 is never
    looked up and no list is returned. On [three_devices_zero_total] the
    driver has its strings and device 1 is skipped, but device 2 then reports
    a total of zero and the division of line 115 raises: device 0 qualifies
    and is in no result. *)
Lemma failing_device_aborts_scan :
  verdict_of three_devices_no_string 1 = Skipped "cuMemGetInfo" 2 /\
  qualifies three_devices_no_string 0 = true /\
  qualifies three_devices_no_string 2 = true /\
  fst (cuda_devices (host_of three_devices_no_string) start)
    = Raise AttributeError /\
  trace (snd (cuda_devices (host_of three_devices_no_string) start))
    = [CuInit 0; CuDeviceGetCount;
       CuDeviceGet 0; CuDeviceGet 0; CuCtxCreate 0 7; CuMemGetInfo;
       CuCtxDetach 4096;
       CuDeviceGet 1; CuDeviceGet 1; CuCtxCreate 0 8; CuMemGetInfo;
       CuGetErrorString 2] /\
  verdict_of three_devices_zero_total 1 = Skipped "cuMemGetInfo" 2 /\
  qualifies three_devices_zero_total 0 = true /\
  fst (cuda_devices (host_of three_devices_zero_total) start)
    = Raise ZeroDivisionError.
Proof. repeat split; vm_compute; reflexivity. Qed.

(** Whether a device qualifies depends on its own replies only. *)
Lemma qualifies_local (cuda cuda' : driver) (j : Z) :
  scan_replies cuda j = scan_replies cuda' j ->
  qualifies cuda j = qualifies cuda' j.
Proof. unfold qualifies, verdict_of. intros ->. reflexivity. Qed.

(** C2 fails on the code. The status of [cuInit] is stored in [result] and
    never compared with [CUDA_SUCCESS]: with [cuInit] reporting status 100
    and the later calls succeeding, the run goes on to the count query and
    the scan, returns device 0 and logs no warning. When the count query
    fails in turn (status 3), the list is empty, and the warning names
    [cuDeviceGetCount] and status 3, not the status of [cuInit]. No reply of
    [cuInit] changes the list a run returns. *)
Theorem cuInit_status_is_ignored :
  cuInit_reply init_fails = 100 /\
  fst (cuda_devices (host_of init_fails) start) = Return [0] /\
  trace (snd (cuda_devices (host_of init_fails) start))
    = [CuInit 0; CuDeviceGetCount; CuDeviceGet 0; CuDeviceGet 0;
       CuCtxCreate 0 7; CuMemGetInfo; CuCtxDetach 4096] /\
  log (snd (cuda_devices (host_of init_fails) start))
    = [Info_free_memory 0 (S754_finite false 8917127262193582 (-53)) 99 100;
       Info_available 0] /\
  cuInit_reply not_initialized = 100 /\
  fst (cuda_devices (host_of not_initialized) start) = Return [] /\
  log (snd (cuda_devices (host_of not_initialized) start))
    = [Warn_failed "cuDeviceGetCount" 3 "initialization error"] /\
  forall (cuda : driver) (status : Z),
    available {| cuInit_reply := status;
                 cuDeviceGetCount_reply := cuDeviceGetCount_reply cuda;
                 scan_replies := scan_replies cuda;
                 cuGetErrorString_reply := cuGetErrorString_reply cuda |}
    = available cuda.
Proof.
  split; [reflexivity|]. split; [vm_compute; reflexivity|].
  split; [vm_compute; reflexivity|]. split; [vm_compute; reflexivity|].
  split; [reflexivity|]. split; [vm_compute; reflexivity|].
  split; [vm_compute; reflexivity|].
  intros cuda status. reflexivity.
Qed.

(** C5 fails on the code. When the memory query of a device fails after its
    context was created, the iteration ends at [continue] and the context is
    not detached: on [two_devices] the context 4096 of device 0 is created
    and the next native call after the failed query and its error string is
    the lookup of device 1; only the context 8192 of device 1 is detached. *)
Theorem context_leaks_when_query_fails :
  trace (snd (cuda_devices (host_of two_devices) start))
    = [CuInit 0; CuDeviceGetCount;
       CuDeviceGet 0; CuDeviceGet 0; CuCtxCreate 0 7; CuMemGetInfo;
       CuGetErrorString 2;
       CuDeviceGet 1; CuDeviceGet 1; CuCtxCreate 0 8; CuMemGetInfo;
       CuCtxDetach 8192] /\
  fst (cuda_devices (host_of two_devices) start) = Return [1] /\
  forall (cuda : driver) (i code : Z),
    verdict_of cuda i = Skipped "cuMemGetInfo" code ->
    In (CuCtxCreate 0 (c_int (snd (cuDeviceGet_again (scan_replies cuda i)))))
       (scan_calls cuda i) /\
    forall ctx, ~ In (CuCtxDetach ctx) (scan_calls cuda i).
Proof.
  split; [vm_compute; reflexivity|]. split; [vm_compute; reflexivity|].
  intros cuda i code. unfold verdict_of, scan_calls.
  destruct (negb (status_ok (fst (cuDeviceGet_reply (scan_replies cuda i)))));
    [discriminate|].
  destruct (negb (status_ok (fst (cuDeviceGet_again (scan_replies cuda i)))));
    [discriminate|].
  destruct (negb (status_ok (fst (cuCtxCreate_reply (scan_replies cuda i)))));
    [discriminate|].
  destruct (negb (status_ok (fst (cuMemGetInfo_reply (scan_replies cuda i)))));
    [|discriminate].
  intros _. split.
  - simpl. auto.
  - intros ctx H. simpl in H.
    repeat (destruct H as [H|H]; [discriminate|]). exact H.
Qed.

(** On the path where every step succeeds, the context the driver created is
    detached at the end of the iteration. *)
Lemma context_detached_when_measured (cuda : driver) (i free total : Z) :
  verdict_of cuda i = Measured free total -> total <> 0 ->
  scan_calls cuda i =
    [CuDeviceGet i; CuDeviceGet i;
     CuCtxCreate 0 (c_int (snd (cuDeviceGet_again (scan_replies cuda i))));
     CuMemGetInfo;
     CuCtxDetach (c_void_p (snd (cuCtxCreate_reply (scan_replies cuda i))))].
Proof.
  unfold verdict_of, scan_calls.
  destruct (negb (status_ok (fst (cuDeviceGet_reply (scan_replies cuda i)))));
    [discriminate|].
  destruct (negb (status_ok (fst (cuDeviceGet_again (scan_replies cuda i)))));
    [discriminate|].
  destruct (negb (status_ok (fst (cuCtxCreate_reply (scan_replies cuda i)))));
    [discriminate|].
  destruct (negb (status_ok (fst (cuMemGetInfo_reply (scan_replies cuda i)))));
    [discriminate|].
  intros H Hne. inversion H; subst.
  apply Z.eqb_neq in Hne. rewrite Hne. reflexivity.
Qed.

(** ** The claim on [CharacterEncoder] *)

Lemma tokenize_raises (s : string) : tokenize s = Raise ValueError.
Proof. reflexivity. Qed.

(** C9. When [CharacterEncoder.__init__] is given no [tokenize] keyword (the
    only case in which it installs one), the callable it hands to the parent
    class raises [ValueError] on every string: the separator of [split] is
    empty, so no text is split into characters. *)
Theorem installed_tokenize_raises (V : Type) (kwargs : gmap string V) :
  kwargs !! "tokenize"%string = None ->
  exists tok,
    CharacterEncoder_init kwargs = Return tok /\
    forall s : string, tok s = Raise ValueError.
Proof.
  intros Hk. exists tokenize. unfold CharacterEncoder_init. rewrite Hk.
  split; [reflexivity|]. apply tokenize_raises.
Qed.

Lemma installed_tokenize_raises_witness :
  exists tok,
    CharacterEncoder_init (∅ : gmap string Z) = Return tok /\
    forall s : string, tok s = Raise ValueError.
Proof.
  apply (installed_tokenize_raises Z ∅). reflexivity.
Defined.

(** [split] with a separator that is not empty does split. *)
Example str_split_comma :
  str_split "a,b,,c" "," = Return ["a"; "b"; EmptyString; "c"]%string.
Proof. reflexivity. Qed.

Example str_split_word :
  str_split "one<>two<>" "<>" = Return ["one"; "two"; EmptyString]%string.
Proof. reflexivity. Qed.

(** ** The claim on [pad] *)

Section PadFacts.

Variable PADDING_INDEX : Z.

Lemma fold_max_ge (xs : list Z) (x : Z) :
  x <= fold_left Z.max xs x /\
  (forall y, In y xs -> y <= fold_left Z.max xs x) /\
  In (fold_left Z.max xs x) (x :: xs).
Proof.
  revert x. induction xs as [|a xs IH]; intros x; simpl.
  - split; [lia|]. split; [intros y []|auto].
  - destruct (IH (Z.max x a)) as (H1 & H2 & H3). split; [lia|]. split.
    + intros y [<-|Hy]; [lia|auto].
    + destruct H3 as [H3|H3]; [|auto].
      rewrite <- H3. destruct (Z.max_spec x a) as [[_ ->]|[_ ->]]; auto.
Qed.

Lemma fold_pad_row (max_len : Z) (batch acc : list (list Z)) :
  fold_left (pad_row PADDING_INDEX max_len) batch acc =
  acc ++ map (fun row => row ++ times (max_len - len row) PADDING_INDEX) batch.
Proof.
  revert acc. induction batch as [|row batch IH]; intros acc; simpl.
  - rewrite app_nil_r. reflexivity.
  - rewrite IH. unfold pad_row. rewrite <- app_assoc. reflexivity.
Qed.

End PadFacts.

(** C10. On a batch that is not empty, [pad] returns [(padded, lengths)]:
    both lists have the rows of the batch in their input order, position by
    position; the padded row is the row followed by [max_len - len row]
    copies of [PADDING_INDEX] and its length is [max_len], the largest row
    length of the batch; [lengths] holds the lengths of the rows before
    padding. *)
Theorem pad_keeps_order_and_pads (PADDING_INDEX : Z) (batch : list (list Z)) :
  batch <> [] ->
  exists padded lengths max_len,
    pad PADDING_INDEX batch = Return (padded, lengths) /\
    (forall row, In row batch -> len row <= max_len) /\
    (exists row, In row batch /\ len row = max_len) /\
    length padded = length batch /\
    length lengths = length batch /\
    forall (i : nat) (row : list Z),
      batch !! i = Some row ->
      padded !! i =
        Some (row ++ replicate (Z.to_nat (max_len - len row)) PADDING_INDEX) /\
      len (row ++ replicate (Z.to_nat (max_len - len row)) PADDING_INDEX)
        = max_len /\
      lengths !! i = Some (len row).
Proof.
  intros Hne. destruct batch as [|row0 batch]; [congruence|]. clear Hne.
  set (b := row0 :: batch).
  set (m := fold_left Z.max (map len batch) (len row0)).
  exists (map (fun row => row ++ times (m - len row) PADDING_INDEX) b),
    (map len b), m.
  destruct (fold_max_ge (map len batch) (len row0)) as (H1 & H2 & H3).
  fold m in H1, H2, H3.
  assert (Hmax : forall row, In row b -> len row <= m).
  { intros row [<-|Hrow]; [exact H1|]. apply H2, in_map, Hrow. }
  split; [|split; [|split; [|split; [|split]]]].
  - unfold pad. change (map len b) with (len row0 :: map len batch).
    cbv beta iota delta [py_max]. fold m.
    rewrite fold_pad_row. reflexivity.
  - exact Hmax.
  - change (len row0 :: map len batch) with (map len b) in H3.
    apply in_map_iff in H3. destruct H3 as (row & Hrow & Hin).
    exists row. auto.
  - apply length_map.
  - apply length_map.
  - intros i row Hi.
    assert (Hin : In row b).
    { apply list_elem_of_In, list_elem_of_lookup. eauto. }
    rewrite !list_lookup_fmap, Hi. simpl. split; [reflexivity|].
    split; [|reflexivity].
    unfold len. rewrite length_app, length_replicate.
    specialize (Hmax row Hin). unfold len in Hmax. lia.
Qed.

Lemma pad_keeps_order_and_pads_witness :
  exists padded lengths max_len,
    pad 0 [[5; 6]; [7; 8; 9]; [4]] = Return (padded, lengths) /\
    (forall row, In row [[5; 6]; [7; 8; 9]; [4]] -> len row <= max_len) /\
    (exists row, In row [[5; 6]; [7; 8; 9]; [4]] /\ len row = max_len) /\
    length padded = length [[5; 6]; [7; 8; 9]; [4]] /\
    length lengths = length [[5; 6]; [7; 8; 9]; [4]] /\
    forall (i : nat) (row : list Z),
      [[5; 6]; [7; 8; 9]; [4]] !! i = Some row ->
      padded !! i = Some (row ++ replicate (Z.to_nat (max_len - len row)) 0) /\
      len (row ++ replicate (Z.to_nat (max_len - len row)) 0) = max_len /\
      lengths !! i = Some (len row).
Proof.
  apply (pad_keeps_order_and_pads 0 [[5; 6]; [7; 8; 9]; [4]]). discriminate.
Defined.

(** A batch that is not sorted by length comes back in the same order. *)
Example pad_unsorted :
  pad 0 [[5; 6]; [7; 8; 9]; [4]]
  = Return ([[5; 6; 0]; [7; 8; 9]; [4; 0; 0]], [2; 3; 1]).
Proof. reflexivity. Qed.

(** ** Further properties of [cuda_devices] *)

Lemma first_exn_in (cuda : driver) (indices : list Z) (i : Z) :
  first_exn cuda indices = None -> In i indices -> scan_exn cuda i = None.
Proof.
  induction indices as [|j rest IH]; simpl; [tauto|].
  destruct (scan_exn cuda j) eqn:Hj; [discriminate|].
  intros Hnone [<-|Hi]; auto.
Qed.

(** X1. When a run returns, a device below the count whose four checked
    calls succeed with sizes below 2^53 bytes is in the list exactly when
    [17654110539292345 * total < free * 2^54]: the exact ratio is above the
    midpoint between the double [0.98] and the next double. *)
Theorem reported_iff_above_midpoint (h : host) (cuda : driver)
    (s0 : list native_call) (r0 : list log_record) (l : list Z) (s' : state)
    (k free total : Z) :
  cuda_devices h (fresh s0 r0) = (Return l, s') ->
  find_cuda h libnames = Some cuda ->
  count_status cuda = CUDA_SUCCESS ->
  0 <= k < count cuda ->
  verdict_of cuda k = Measured free total ->
  free < 2 ^ 53 -> total < 2 ^ 53 ->
  (In k l <-> 17654110539292345 * total < free * 2 ^ 54).
Proof.
  intros Hrun Hfind Hcount Hk Hv Hfree Htotal.
  apply cuda_devices_returns in Hrun. destruct Hrun as (-> & Hraise & _).
  unfold expected, raises in *. rewrite Hfind in *.
  assert (Hne : total <> 0).
  { unfold scan_raises in Hraise. rewrite Hcount in Hraise. simpl in Hraise.
    assert (Hin : In k (range (count cuda))) by (apply in_range; exact Hk).
    pose proof (first_exn_in _ _ _ Hraise Hin) as He.
    unfold scan_exn in He. rewrite Hv in He.
    destruct (total =? 0) eqn:E; [discriminate|]. apply Z.eqb_neq, E. }
  assert (Hrange : 0 <= free < 2 ^ 64 /\ 0 <= total < 2 ^ 64).
  { revert Hv. unfold verdict_of.
    repeat match goal with
    | |- (if ?c then _ else _) = _ -> _ => destruct c; [discriminate|]
    end.
    intros Hv. inversion Hv; subst. unfold c_size_t.
    split; apply Z.mod_pos_bound; reflexivity. }
  rewrite in_available. unfold qualifies. rewrite Hv.
  apply Z.eqb_neq in Hne. rewrite Hne. simpl.
  rewrite above_threshold_iff by lia.
  change (2 ^ 54) with 18014398509481984. tauto.
Qed.

Lemma reported_iff_above_midpoint_witness :
  In 0 [0; 2] <-> 17654110539292345 * 100 < 99 * 2 ^ 54.
Proof.
  apply (reported_iff_above_midpoint (host_of three_devices) three_devices
           [] [] [0; 2]
           (snd (cuda_devices (host_of three_devices) (fresh [] []))) 0 99 100).
  - vm_compute. reflexivity.
  - reflexivity.
  - reflexivity.
  - change (count three_devices) with 3. lia.
  - reflexivity.
  - reflexivity.
  - reflexivity.
Defined.

(** X2. On a well-behaved driver (error strings decode, totals are not
    zero) whose count query succeeds, a device below the count whose four
    checked calls succeed and that has at least 99% of less than 2^53 bytes
    free is reported. *)
Theorem mostly_free_device_is_reported (h : host) (cuda : driver)
    (s0 : list native_call) (r0 : list log_record) (k free total : Z) :
  find_cuda h libnames = Some cuda ->
  count_status cuda = CUDA_SUCCESS ->
  strings_decode cuda -> totals_nonzero cuda ->
  0 <= k < count cuda ->
  verdict_of cuda k = Measured free total ->
  free < 2 ^ 53 -> total < 2 ^ 53 ->
  99 * total <= 100 * free ->
  exists l s', cuda_devices h (fresh s0 r0) = (Return l, s') /\ In k l.
Proof.
  intros Hfind Hcount Hs Ht Hk Hv Hfree Htotal Hratio.
  destruct (well_behaved_run h s0 r0) as [s' Hrun].
  { intros cuda' H'. rewrite Hfind in H'. inversion H'; subst. auto. }
  exists (expected h), s'. split; [exact Hrun|].
  assert (Hne : total <> 0) by (apply (Ht k free total Hk Hv)).
  assert (Hrange : 0 <= free < 2 ^ 64 /\ 0 <= total < 2 ^ 64).
  { revert Hv. unfold verdict_of.
    repeat match goal with
    | |- (if ?c then _ else _) = _ -> _ => destruct c; [discriminate|]
    end.
    intros Hv. inversion Hv; subst. unfold c_size_t.
    split; apply Z.mod_pos_bound; reflexivity. }
  unfold expected. rewrite Hfind. apply in_available.
  split; [exact Hcount|]. split; [exact Hk|].
  unfold qualifies. rewrite Hv. apply Z.eqb_neq in Hne. rewrite Hne. simpl.
  apply above_threshold_iff; lia.
Qed.

Lemma mostly_free_device_is_reported_witness :
  exists l s',
    cuda_devices (host_of three_devices) (fresh [] []) = (Return l, s') /\
    In 2 l.
Proof.
  apply (mostly_free_device_is_reported (host_of three_devices) three_devices
           [] [] 2 99 100).
  - reflexivity.
  - reflexivity.
  - apply three_devices_strings.
  - apply three_devices_totals.
  - change (count three_devices) with 3. lia.
  - reflexivity.
  - reflexivity.
  - reflexivity.
  - lia.
Defined.

(** X3. When the count query fails and the driver has a string for its
    status, the run returns the empty list after exactly three native calls
    ([cuInit], [cuDeviceGetCount], [cuGetErrorString]) and one warning that
    names [cuDeviceGetCount], the status and the string; no device is
    touched. *)
Theorem count_failure_returns_empty (h : host) (cuda : driver)
    (s0 : list native_call) (r0 : list log_record) (message : string) :
  find_cuda h libnames = Some cuda ->
  count_status cuda <> CUDA_SUCCESS ->
  cuGetErrorString_reply cuda (count_status cuda) = Text message ->
  exists s',
    cuda_devices h (fresh s0 r0) = (Return [], s') /\
    trace s' = s0 ++ [CuInit 0; CuDeviceGetCount;
                      CuGetErrorString (count_status cuda)] /\
    log s' = r0 ++ [Warn_failed "cuDeviceGetCount" (count_status cuda) message].
Proof.
  intros Hfind Hne Hmsg. unfold cuda_devices. rewrite Hfind.
  unfold scan, count_status in *.
  unfold bind at 1. simpl. unfold bind at 1. simpl. unfold bind at 1. simpl.
  unfold bind at 1.
  erewrite run_eq by reflexivity.
  apply Z.eqb_neq in Hne. rewrite Hne. cbv zeta. rewrite Hmsg.
  eexists. split; [reflexivity|]. simpl. rewrite <- !app_assoc. auto.
Qed.

Lemma count_failure_returns_empty_witness :
  exists s',
    cuda_devices (host_of not_initialized) (fresh [] []) = (Return [], s') /\
    trace s' = [] ++ [CuInit 0; CuDeviceGetCount;
                      CuGetErrorString (count_status not_initialized)] /\
    log s' = [] ++ [Warn_failed "cuDeviceGetCount"
                      (count_status not_initialized) "initialization error"].
Proof.
  apply (count_failure_returns_empty (host_of not_initialized) not_initialized
           [] [] "initialization error").
  - reflexivity.
  - discriminate.
  - reflexivity.
Defined.

(** X4. When the count query succeeds with a count that is zero or negative,
    the loop body never runs: the run returns the empty list after [cuInit]
    and [cuDeviceGetCount] alone, and logs nothing. *)
Theorem no_device_no_scan (h : host) (cuda : driver)
    (s0 : list native_call) (r0 : list log_record) :
  find_cuda h libnames = Some cuda ->
  count_status cuda = CUDA_SUCCESS ->
  count cuda <= 0 ->
  exists s',
    cuda_devices h (fresh s0 r0) = (Return [], s') /\
    trace s' = s0 ++ [CuInit 0; CuDeviceGetCount] /\
    log s' = r0.
Proof.
  intros Hfind Hcount Hn. unfold cuda_devices. rewrite Hfind.
  unfold scan, count_status, count in *.
  unfold bind at 1. simpl. unfold bind at 1. simpl. unfold bind at 1. simpl.
  unfold bind at 1.
  erewrite run_eq by reflexivity.
  rewrite Hcount. simpl.
  unfold bind at 1. simpl. unfold bind at 1.
  unfold range. replace (Z.to_nat (c_int (snd (cuDeviceGetCount_reply cuda))))
    with 0%nat by lia.
  simpl. eexists. split; [reflexivity|]. simpl. rewrite <- !app_assoc. auto.
Qed.

Lemma no_device_no_scan_witness :
  exists s',
    cuda_devices (host_of negative_count) (fresh [] []) = (Return [], s') /\
    trace s' = [] ++ [CuInit 0; CuDeviceGetCount] /\
    log s' = [].
Proof.
  apply (no_device_no_scan (host_of negative_count) negative_count [] []).
  - reflexivity.
  - reflexivity.
  - vm_compute. discriminate.
Defined.

(** X5. The library is the first of [libcuda.so], [libcuda.dylib],
    [cuda.dll] that loads: a later name is used only when every earlier
    name fails to load. *)
Theorem first_loadable_library_wins (h : host) (cuda : driver) :
  find_cuda h libnames = Some cuda <->
  CDLL h "libcuda.so" = Some cuda \/
  (CDLL h "libcuda.so" = None /\ CDLL h "libcuda.dylib" = Some cuda) \/
  (CDLL h "libcuda.so" = None /\ CDLL h "libcuda.dylib" = None /\
   CDLL h "cuda.dll" = Some cuda).
Proof.
  unfold libnames. simpl.
  destruct (CDLL h "libcuda.so") as [d1|];
    [|destruct (CDLL h "libcuda.dylib") as [d2|];
      [|destruct (CDLL h "cuda.dll") as [d3|]]];
    split; intros H;
    repeat match goal with
    | H : _ \/ _ |- _ => destruct H
    | H : _ /\ _ |- _ => destruct H
    end; try discriminate; try congruence; auto.
Qed.

(** The first iteration of a range that raises: the iterations before it
    raise nothing. *)
Lemma first_exn_seq (cuda : driver) (e : exn) (n a : nat) :
  first_exn cuda (map Z.of_nat (seq a n)) = Some e ->
  exists k : nat, (a <= k < a + n)%nat /\
    scan_exn cuda (Z.of_nat k) = Some e /\
    forall j : nat, (a <= j < k)%nat -> scan_exn cuda (Z.of_nat j) = None.
Proof.
  revert a. induction n as [|n IH]; intros a; simpl; [discriminate|].
  destruct (scan_exn cuda (Z.of_nat a)) as [e'|] eqn:Ha.
  - intros H. inversion H; subst. exists a. split; [lia|].
    split; [exact Ha|]. intros j Hj. lia.
  - intros H. destruct (IH (S a) H) as (k & Hk & He & Hbefore).
    exists k. split; [lia|]. split; [exact He|].
    intros j Hj. destruct (Nat.eq_dec j a) as [->|Hne]; [exact Ha|].
    apply Hbefore. lia.
Qed.

Lemma first_exn_range (cuda : driver) (e : exn) (n : Z) :
  first_exn cuda (range n) = Some e ->
  exists i, 0 <= i < n /\ scan_exn cuda i = Some e /\
    forall j, 0 <= j < i -> scan_exn cuda j = None.
Proof.
  unfold range. intros H.
  destruct (first_exn_seq cuda e _ _ H) as (k & Hk & He & Hbefore).
  exists (Z.of_nat k). split; [lia|]. split; [exact He|].
  intros j Hj. rewrite <- (Z2Nat.id j) by lia. apply Hbefore. lia.
Qed.

(** The status of a skipped device is a failing one. *)
Lemma skipped_status (cuda : driver) (i : Z) (func_name : string) (code : Z) :
  verdict_of cuda i = Skipped func_name code -> code <> CUDA_SUCCESS.
Proof.
  unfold verdict_of, status_ok.
  repeat match goal with
  | |- (if negb (?c =? CUDA_SUCCESS) then _ else _) = _ -> _ =>
      let E := fresh "E" in
      destruct (c =? CUDA_SUCCESS) eqn:E; simpl;
      [|apply Z.eqb_neq in E; intros Hv; inversion Hv; subst; exact E]
  end.
  discriminate.
Qed.

(** An iteration that raises nothing: a failing status has its string, a
    measured total is not zero. *)
Lemma scan_exn_none (cuda : driver) (j : Z) :
  scan_exn cuda j = None ->
  match verdict_of cuda j with
  | Skipped _ code =>
      exists message, cuGetErrorString_reply cuda code = Text message
  | Measured _ total => total <> 0
  end.
Proof.
  unfold scan_exn, decode_exn.
  destruct (verdict_of cuda j) as [name code|free total].
  - destruct (cuGetErrorString_reply cuda code); try discriminate. eauto.
  - destruct (Z.eqb_spec total 0); [discriminate|auto].
Qed.

(** X6. On a library that exports the seven functions of the driver the
    code names (a [driver] replies to each of them; [ctypes] resolves a
    function when the attribute is read, and a library that lacks one is not
    a [driver]), an exception that leaves [cuda_devices] has its cause in a
    reply the run met. Either the count query failed and the driver wrote no
    string for its status ([AttributeError]: [error.value] is [None]) or a
    string that is not UTF-8 ([UnicodeDecodeError]). Or the count query
    succeeded and the exception comes from the first device [i] below the
    count whose iteration raises (every device before it was skipped with a
    string that decodes, or reported a total that is not zero): the four
    checked calls of [i] succeeded with a total of zero
    ([ZeroDivisionError]), or the first failing call of [i] has a status
    without a string ([AttributeError]) or with a string that is not UTF-8
    ([UnicodeDecodeError]). *)
Theorem escaping_exceptions (h : host) (s0 : list native_call)
    (r0 : list log_record) (e : exn) (s' : state) :
  cuda_devices h (fresh s0 r0) = (Raise e, s') ->
  exists cuda, find_cuda h libnames = Some cuda /\
    ((count_status cuda <> CUDA_SUCCESS /\
      ((e = AttributeError /\
        cuGetErrorString_reply cuda (count_status cuda) = NullPtr) \/
       (e = UnicodeDecodeError /\
        cuGetErrorString_reply cuda (count_status cuda) = Undecodable))) \/
     (count_status cuda = CUDA_SUCCESS /\
      exists i, 0 <= i < count cuda /\
        (forall j, 0 <= j < i ->
           match verdict_of cuda j with
           | Skipped _ code =>
               exists message, cuGetErrorString_reply cuda code = Text message
           | Measured _ total => total <> 0
           end) /\
        ((e = ZeroDivisionError /\
          exists free, verdict_of cuda i = Measured free 0) \/
         (exists func_name code,
            verdict_of cuda i = Skipped func_name code /\
            code <> CUDA_SUCCESS /\
            ((e = AttributeError /\
              cuGetErrorString_reply cuda code = NullPtr) \/
             (e = UnicodeDecodeError /\
              cuGetErrorString_reply cuda code = Undecodable)))))).
Proof.
  intros Hrun.
  destruct (cuda_devices_spec h (fresh s0 r0)) as (s1 & Hspec & _).
  rewrite Hrun in Hspec. unfold raises in Hspec.
  destruct (find_cuda h libnames) as [cuda|]; [|discriminate].
  exists cuda. split; [reflexivity|].
  destruct (scan_raises cuda) as [e'|] eqn:He; [|discriminate].
  assert (e' = e) by congruence. subst e'. clear Hspec Hrun.
  assert (Hdecode : forall code, decode_exn cuda code = Some e ->
            (e = AttributeError /\ cuGetErrorString_reply cuda code = NullPtr) \/
            (e = UnicodeDecodeError /\
             cuGetErrorString_reply cuda code = Undecodable)).
  { intros code. unfold decode_exn.
    destruct (cuGetErrorString_reply cuda code) eqn:Hc; intros H;
      inversion H; subst; [left|right]; split; reflexivity. }
  unfold scan_raises in He.
  destruct (Z.eqb_spec (count_status cuda) CUDA_SUCCESS) as [Hc|Hc].
  - right. split; [exact Hc|].
    destruct (first_exn_range cuda e _ He) as (i & Hi & Hexn & Hbefore).
    exists i. split; [exact Hi|]. split.
    { intros j Hj. apply scan_exn_none, Hbefore, Hj. }
    unfold scan_exn in Hexn.
    destruct (verdict_of cuda i) as [name code|free total] eqn:Hv.
    + right. exists name, code. split; [reflexivity|].
      split; [exact (skipped_status cuda i name code Hv)|].
      apply Hdecode, Hexn.
    + left. destruct (Z.eqb_spec total 0) as [->|]; [|discriminate].
      inversion Hexn; subst. split; [reflexivity|]. exists free. reflexivity.
  - left. split; [exact Hc|]. apply Hdecode, He.
Qed.

Lemma escaping_exceptions_witness :
  exists cuda,
    find_cuda (host_of three_devices_no_string) libnames = Some cuda /\
    ((count_status cuda <> CUDA_SUCCESS /\
      ((AttributeError = AttributeError /\
        cuGetErrorString_reply cuda (count_status cuda) = NullPtr) \/
       (AttributeError = UnicodeDecodeError /\
        cuGetErrorString_reply cuda (count_status cuda) = Undecodable))) \/
     (count_status cuda = CUDA_SUCCESS /\
      exists i, 0 <= i < count cuda /\
        (forall j, 0 <= j < i ->
           match verdict_of cuda j with
           | Skipped _ code =>
               exists message, cuGetErrorString_reply cuda code = Text message
           | Measured _ total => total <> 0
           end) /\
        ((AttributeError = ZeroDivisionError /\
          exists free, verdict_of cuda i = Measured free 0) \/
         (exists func_name code,
            verdict_of cuda i = Skipped func_name code /\
            code <> CUDA_SUCCESS /\
            ((AttributeError = AttributeError /\
              cuGetErrorString_reply cuda code = NullPtr) \/
             (AttributeError = UnicodeDecodeError /\
              cuGetErrorString_reply cuda code = Undecodable)))))).
Proof.
  apply (escaping_exceptions (host_of three_devices_no_string) [] []
           AttributeError
           (snd (cuda_devices (host_of three_devices_no_string) (fresh [] [])))).
  vm_compute. reflexivity.
Defined.

(** X7. A call of the cached function that raises stores nothing: the cache
    slot stays empty and no list object is allocated, while the native calls
    it made are in the trace. The next call scans again: on a machine whose
    run returns, it allocates the list, stores it and adds that run's native
    calls to the trace. *)
Theorem raising_call_is_not_cached (h : host) (p p1 : process) (e : exn) :
  cache p = None ->
  cuda_devices_cached h p = (Raise e, p1) ->
  cache p1 = None /\ heap p1 = heap p /\
  calls p1 = calls p ++ native_calls h /\
  forall h', raises h' = None ->
    exists p2,
      cuda_devices_cached h' p1 = (Return (length (heap p)), p2) /\
      cache p2 = Some (length (heap p)) /\
      heap p2 !! length (heap p) = Some (expected h') /\
      calls p2 = calls p1 ++ native_calls h'.
Proof.
  intros Hp Hcall. unfold cuda_devices_cached in Hcall. rewrite Hp in Hcall.
  destruct (cuda_devices_spec h (fresh (calls p) (records p)))
    as (s & Hspec & Htrace).
  rewrite Hspec in Hcall.
  destruct (raises h) as [e'|]; inversion Hcall; subst; clear Hcall.
  simpl. split; [reflexivity|]. split; [reflexivity|]. split; [exact Htrace|].
  intros h' Hnone. unfold cuda_devices_cached. simpl.
  destruct (cuda_devices_spec h' (fresh (trace s) (log s)))
    as (s2 & Hspec2 & Htrace2).
  rewrite Hspec2, Hnone. simpl. eexists. split; [reflexivity|]. simpl.
  split; [reflexivity|]. split; [|exact Htrace2].
  rewrite lookup_app_r by lia. rewrite Nat.sub_diag. reflexivity.
Qed.

Lemma raising_call_is_not_cached_witness :
  cache (snd (cuda_devices_cached (host_of zero_total) boot)) = None /\
  heap (snd (cuda_devices_cached (host_of zero_total) boot)) = heap boot /\
  calls (snd (cuda_devices_cached (host_of zero_total) boot))
    = calls boot ++ native_calls (host_of zero_total) /\
  forall h', raises h' = None ->
    exists p2,
      cuda_devices_cached h' (snd (cuda_devices_cached (host_of zero_total) boot))
        = (Return (length (heap boot)), p2) /\
      cache p2 = Some (length (heap boot)) /\
      heap p2 !! length (heap boot) = Some (expected h') /\
      calls p2 = calls (snd (cuda_devices_cached (host_of zero_total) boot))
                 ++ native_calls h'.
Proof.
  apply (raising_call_is_not_cached (host_of zero_total) boot _
           ZeroDivisionError).
  - reflexivity.
  - vm_compute. reflexivity.
Defined.

(** X8. When the four checked calls for device [i] succeed and the total is
    not zero, the iteration returns after exactly five native calls: the
    handle is looked up twice, the context is created for the handle the
    second lookup wrote, memory is queried, and the context the driver
    created is the one detached. *)
Theorem successful_iteration_calls (cuda : driver) (i free total : Z)
    (s : state) :
  verdict_of cuda i = Measured free total -> total <> 0 ->
  exists s',
    scan_device cuda i s = (Return tt, s') /\
    trace s' = trace s ++
      [CuDeviceGet i; CuDeviceGet i;
       CuCtxCreate 0 (c_int (snd (cuDeviceGet_again (scan_replies cuda i))));
       CuMemGetInfo;
       CuCtxDetach (c_void_p (snd (cuCtxCreate_reply (scan_replies cuda i))))].
Proof.
  intros Hv Hne.
  destruct (scan_device_spec cuda i s) as (s' & Hrun & _ & Htrace).
  exists s'. rewrite Hrun, Htrace.
  rewrite (context_detached_when_measured cuda i free total Hv Hne).
  unfold scan_exn. rewrite Hv. apply Z.eqb_neq in Hne. rewrite Hne.
  split; reflexivity.
Qed.

Lemma successful_iteration_calls_witness :
  exists s',
    scan_device three_devices 2 start = (Return tt, s') /\
    trace s' = trace start ++
      [CuDeviceGet 2; CuDeviceGet 2;
       CuCtxCreate 0 (c_int (snd (cuDeviceGet_again (scan_replies three_devices 2))));
       CuMemGetInfo;
       CuCtxDetach (c_void_p (snd (cuCtxCreate_reply (scan_replies three_devices 2))))].
Proof.
  apply (successful_iteration_calls three_devices 2 99 100 start).
  - reflexivity.
  - discriminate.
Defined.

(** ** [get_total_parameters] *)

Lemma and_then_ok {A B : Type} (r : attempt A) (k : A -> attempt B) (b : B) :
  and_then r k = Ok b <-> exists a, r = Ok a /\ k a = Ok b.
Proof.
  destruct r as [a|e]; simpl; split.
  - eauto.
  - intros (a' & Ha & Hk). inversion Ha; subst. exact Hk.
  - discriminate.
  - intros (a' & Ha & _). discriminate.
Qed.

Lemma getitem_nonneg {A : Type} (xs : list A) (i : nat) (x : A) :
  xs !! i = Some x -> getitem xs (Z.of_nat i) = Ok x.
Proof.
  intros Hx. pose proof (lookup_lt_Some _ _ _ Hx) as Hlt.
  unfold getitem, len.
  destruct (Z.ltb_spec (Z.of_nat i) 0) as [|_]; [lia|].
  destruct (Z.ltb_spec (Z.of_nat i) 0) as [|_]; [lia|].
  destruct (Z.leb_spec (Z.of_nat (length xs)) (Z.of_nat i)) as [|_]; [lia|].
  simpl. rewrite Nat2Z.id, Hx. reflexivity.
Qed.

Lemma counted_cases (x : parameter) :
  counted x =
    match x_size x with
    | [] => Err IndexError
    | [d0] => Ok d0
    | d0 :: d1 :: _ => Ok (d0 * d1)
    end.
Proof.
  unfold counted. destruct (x_size x) as [|d0 [|d1 rest]].
  - reflexivity.
  - reflexivity.
  - assert (Hlen : (1 <? len (d0 :: d1 :: rest)) = true).
    { apply Z.ltb_lt. unfold len. simpl length. lia. }
    rewrite Hlen.
    pose proof (getitem_nonneg (d0 :: d1 :: rest) 0 d0 eq_refl) as H0.
    pose proof (getitem_nonneg (d0 :: d1 :: rest) 1 d1 eq_refl) as H1.
    change (Z.of_nat 0) with 0 in H0. change (Z.of_nat 1) with 1 in H1.
    rewrite H0. simpl. rewrite H1. reflexivity.
Qed.

Lemma py_sum_ok {A : Type} (term : A -> attempt Z) (f : A -> Z) (xs : list A)
    (acc : Z) :
  (forall x, In x xs -> term x = Ok (f x)) ->
  py_sum term xs acc = Ok (acc + fold_right Z.add 0 (map f xs)).
Proof.
  revert acc. induction xs as [|x xs IH]; intros acc Hterm; simpl.
  - f_equal. lia.
  - rewrite (Hterm x) by (left; reflexivity). simpl.
    rewrite IH by (intros y Hy; apply Hterm; right; exact Hy).
    f_equal. lia.
Qed.

(** X9. When every trainable parameter is a vector or a matrix, the function
    returns the number of elements of the trainable parameters; parameters
    that do not require a gradient are not counted. *)
Theorem total_parameters_of_vectors_and_matrices (model : list parameter) :
  (forall x, In x model -> requires_grad x = true ->
     length (x_size x) = 1%nat \/ length (x_size x) = 2%nat) ->
  get_total_parameters model =
    Ok (fold_right Z.add 0
          (map (fun x => numel (x_size x)) (List.filter requires_grad model))).
Proof.
  intros Hdims. unfold get_total_parameters.
  rewrite (py_sum_ok counted (fun x => numel (x_size x))); [reflexivity|].
  intros x Hx. apply filter_In in Hx. destruct Hx as [Hx Hg].
  rewrite counted_cases. specialize (Hdims x Hx Hg). unfold numel.
  destruct (x_size x) as [|d0 [|d1 [|d2 rest]]]; simpl in *;
    try (destruct Hdims; discriminate); f_equal; lia.
Qed.

Lemma total_parameters_of_vectors_and_matrices_witness :
  get_total_parameters
    [ {| requires_grad := true; x_size := [3; 4] |};
      {| requires_grad := false; x_size := [5; 5; 5] |};
      {| requires_grad := true; x_size := [7] |} ] =
    Ok (fold_right Z.add 0
          (map (fun x => numel (x_size x))
             (List.filter requires_grad
                [ {| requires_grad := true; x_size := [3; 4] |};
                  {| requires_grad := false; x_size := [5; 5; 5] |};
                  {| requires_grad := true; x_size := [7] |} ]))).
Proof.
  apply total_parameters_of_vectors_and_matrices.
  intros x [<-|[<-|[<-|[]]]]; simpl; auto; discriminate.
Defined.

Lemma py_sum_counted (xs : list parameter) (acc : Z) :
  (exists x, In x xs /\ x_size x = []) /\ py_sum counted xs acc = Err IndexError \/
  (forall x, In x xs -> x_size x <> []) /\
  exists n, py_sum counted xs acc = Ok n.
Proof.
  revert acc. induction xs as [|x xs IH]; intros acc; simpl.
  - right. split; [intros x []|eauto].
  - rewrite counted_cases.
    destruct (x_size x) as [|d0 [|d1 rest]] eqn:Hx; simpl.
    + left. split; [exists x; auto|reflexivity].
    + destruct (IH (acc + d0)) as [[(y & Hy & Hsz) Herr]|[Hall Hok]].
      * left. split; [exists y; auto|exact Herr].
      * right. split; [|exact Hok].
        intros y [<-|Hy]; [rewrite Hx; discriminate|auto].
    + destruct (IH (acc + d0 * d1)) as [[(y & Hy & Hsz) Herr]|[Hall Hok]].
      * left. split; [exists y; auto|exact Herr].
      * right. split; [|exact Hok].
        intros y [<-|Hy]; [rewrite Hx; discriminate|auto].
Qed.

(** X10. The function raises exactly when a trainable parameter has no
    dimension (a scalar tensor), and the exception is [IndexError]; in every
    other case it returns a number. *)
Theorem total_parameters_raises_on_scalars (model : list parameter) :
  (get_total_parameters model = Err IndexError <->
   exists x, In x model /\ requires_grad x = true /\ x_size x = []) /\
  (get_total_parameters model = Err IndexError \/
   exists n, get_total_parameters model = Ok n).
Proof.
  unfold get_total_parameters.
  destruct (py_sum_counted (List.filter requires_grad model) 0)
    as [[(x & Hx & Hsz) Herr]|[Hall [n Hok]]].
  - apply filter_In in Hx. destruct Hx as [Hx Hg]. split; [|left; exact Herr].
    split; [intros _; exists x; auto|intros _; exact Herr].
  - split; [|right; eauto]. rewrite Hok. split; [discriminate|].
    intros (x & Hx & Hg & Hsz). exfalso. apply (Hall x); [|exact Hsz].
    apply filter_In. auto.
Qed.

Lemma numel_ge_1 (sz : list Z) : (forall d, In d sz -> 1 <= d) -> 1 <= numel sz.
Proof.
  unfold numel. induction sz as [|d sz IH]; simpl; intros H; [lia|].
  assert (1 <= d) by (apply H; auto).
  assert (1 <= fold_right Z.mul 1 sz) by (apply IH; intros; apply H; auto).
  nia.
Qed.

Lemma py_sum_le (xs : list parameter) (acc : Z) :
  (forall x, In x xs -> x_size x <> [] /\ forall d, In d (x_size x) -> 1 <= d) ->
  exists n, py_sum counted xs acc = Ok n /\
            n <= acc + fold_right Z.add 0 (map (fun x => numel (x_size x)) xs).
Proof.
  revert acc. induction xs as [|x xs IH]; intros acc Hpos; simpl.
  - exists acc. split; [reflexivity|lia].
  - destruct (Hpos x (or_introl eq_refl)) as [Hne Hd].
    rewrite counted_cases.
    assert (Hrest : forall y, In y xs ->
              x_size y <> [] /\ forall d, In d (x_size y) -> 1 <= d)
      by (intros y Hy; apply Hpos; right; exact Hy).
    destruct (x_size x) as [|d0 [|d1 rest]] eqn:Hx; [congruence| |]; simpl.
    + destruct (IH (acc + d0) Hrest) as (n & Hn & Hle).
      exists n. split; [exact Hn|]. change (numel [d0]) with (d0 * 1). lia.
    + destruct (IH (acc + d0 * d1) Hrest) as (n & Hn & Hle).
      exists n. split; [exact Hn|].
      assert (H0 : 1 <= d0) by (apply Hd; simpl; auto).
      assert (H1 : 1 <= d1) by (apply Hd; simpl; auto).
      assert (Hr : 1 <= numel rest)
        by (apply numel_ge_1; intros d Hin; apply Hd; simpl; auto).
      change (numel (d0 :: d1 :: rest)) with (d0 * (d1 * numel rest)).
      assert (d0 * d1 <= d0 * (d1 * numel rest)) by nia. lia.
Qed.

(** X11. With positive dimensions the function never counts more than the
    number of elements of the trainable parameters: of a tensor with more
    than two dimensions it counts the product of the first two only. *)
Theorem total_parameters_never_overcounts (model : list parameter) :
  (forall x, In x model -> requires_grad x = true ->
     x_size x <> [] /\ forall d, In d (x_size x) -> 1 <= d) ->
  exists n,
    get_total_parameters model = Ok n /\
    n <= fold_right Z.add 0
           (map (fun x => numel (x_size x)) (List.filter requires_grad model)).
Proof.
  intros Hpos. unfold get_total_parameters.
  destruct (py_sum_le (List.filter requires_grad model) 0) as (n & Hn & Hle).
  { intros x Hx. apply filter_In in Hx. destruct Hx. auto. }
  exists n. split; [exact Hn|lia].
Qed.

Lemma total_parameters_never_overcounts_witness :
  exists n,
    get_total_parameters [ {| requires_grad := true; x_size := [2; 3; 4] |} ]
      = Ok n /\
    n <= fold_right Z.add 0
           (map (fun x => numel (x_size x))
              (List.filter requires_grad
                 [ {| requires_grad := true; x_size := [2; 3; 4] |} ])).
Proof.
  apply total_parameters_never_overcounts.
  intros x [<-|[]] _. split; [discriminate|].
  simpl. intros d [<-|[<-|[<-|[]]]]; lia.
Defined.

(** A convolution-like weight of size 2 x 3 x 4 is counted as 6, not 24. *)
Example three_dimensions_undercounted :
  get_total_parameters [ {| requires_grad := true; x_size := [2; 3; 4] |} ]
  = Ok 6.
Proof. reflexivity. Qed.

(** ** [torch_equals_ignore_index] *)

Lemma tensor_ne_in_range (t : list Z) (v : Z) :
  - 2 ^ 63 <= v < 2 ^ 63 ->
  tensor_ne t v = Ok (map (fun x => negb (x =? v)) t).
Proof.
  intros [Hlo Hhi]. unfold tensor_ne, int64.
  rewrite (proj2 (Z.leb_le _ _) Hlo), (proj2 (Z.ltb_lt _ _) Hhi). reflexivity.
Qed.

Lemma tensor_ne_out_of_range (t : list Z) (v : Z) :
  ~ (- 2 ^ 63 <= v < 2 ^ 63) -> tensor_ne t v = Err OverflowError.
Proof.
  intros Hout. unfold tensor_ne, int64.
  destruct (Z.leb_spec (- 2 ^ 63) v); destruct (Z.ltb_spec v (2 ^ 63));
    try reflexivity. exfalso. apply Hout. split; assumption.
Qed.

Lemma masked_select_same_length {A : Type} (input : list A) (mask : list bool) :
  length input = length mask -> masked_select input mask = Ok (select input mask).
Proof.
  intros H. unfold masked_select.
  rewrite (proj2 (Nat.eqb_eq _ _) H). reflexivity.
Qed.

(** With an index the elements can hold, the function compares what the
    mask selects of the two tensors. *)
Lemma equals_ignore_index_select (target prediction : list Z) (ignored : Z) :
  - 2 ^ 63 <= ignored < 2 ^ 63 ->
  length target = length prediction ->
  torch_equals_ignore_index target prediction (Some ignored)
  = Ok (torch_equal
          (select target (map (fun x => negb (x =? ignored)) target))
          (select prediction (map (fun x => negb (x =? ignored)) target))).
Proof.
  intros Hrange Hlen. unfold torch_equals_ignore_index.
  rewrite (tensor_ne_in_range target ignored Hrange). cbn [and_then].
  rewrite !masked_select_same_length by (rewrite length_map; congruence).
  reflexivity.
Qed.

Lemma select_agree (target prediction : list Z) (ignored : Z) :
  length target = length prediction ->
  (select target (map (fun x => negb (x =? ignored)) target)
   = select prediction (map (fun x => negb (x =? ignored)) target) <->
   forall (k : nat) (x : Z),
     target !! k = Some x -> x <> ignored -> prediction !! k = Some x).
Proof.
  revert prediction.
  induction target as [|x target IH]; intros [|y prediction] Hlen;
    try discriminate; simpl.
  - split; [intros _ k x Hk; discriminate|reflexivity].
  - injection Hlen as Hlen. specialize (IH prediction Hlen).
    destruct (Z.eqb_spec x ignored) as [->|Hne]; simpl.
    + rewrite IH. split.
      * intros H [|k] z Hk Hz; simpl in *; [congruence|eauto].
      * intros H k z Hk Hz. apply (H (S k) z Hk Hz).
    + split.
      * intros H. injection H as -> H. pose proof (proj1 IH H) as H'.
        intros [|k] z Hk Hz; simpl in *; [assumption|eauto].
      * intros H. pose proof (H 0%nat x eq_refl Hne) as H0. simpl in H0.
        injection H0 as ->. f_equal. apply (proj2 IH).
        intros k z Hk Hz. apply (H (S k) z Hk Hz).
Qed.

(** X12. On [LongTensor]s of the same length and with an index to ignore
    that their elements can hold (a Python int of 64 bits, signed), the
    function returns (it does not raise) and the answer is [True] exactly
    when the prediction equals the target at every position where the
    target is not the ignored index; what the prediction holds where the
    target is the ignored index does not matter. An index the elements
    cannot hold is refused by [target.ne], see [ignore_index_out_of_range]. *)
Theorem equal_outside_ignored_positions (target prediction : list Z)
    (ignored : Z) :
  - 2 ^ 63 <= ignored < 2 ^ 63 ->
  length target = length prediction ->
  exists answer,
    torch_equals_ignore_index target prediction (Some ignored) = Ok answer /\
    (answer = true <->
     forall (k : nat) (x : Z),
       target !! k = Some x -> x <> ignored -> prediction !! k = Some x).
Proof.
  intros Hrange Hlen.
  rewrite (equals_ignore_index_select target prediction ignored Hrange Hlen).
  eexists. split; [reflexivity|].
  unfold torch_equal. rewrite bool_decide_eq_true.
  apply select_agree, Hlen.
Qed.

Lemma equal_outside_ignored_positions_witness :
  exists answer,
    torch_equals_ignore_index [1; 0; 2] [1; 5; 2] (Some 0) = Ok answer /\
    (answer = true <->
     forall (k : nat) (x : Z),
       [1; 0; 2] !! k = Some x -> x <> 0 -> [1; 5; 2] !! k = Some x).
Proof.
  apply (equal_outside_ignored_positions [1; 0; 2] [1; 5; 2] 0).
  - split; [vm_compute; discriminate|reflexivity].
  - reflexivity.
Defined.

(** An index that 64 bits cannot hold makes [target.ne] raise, whatever the
    tensors are: nothing is compared. *)
Lemma ignore_index_out_of_range (target prediction : list Z) (ignored : Z) :
  ~ (- 2 ^ 63 <= ignored < 2 ^ 63) ->
  torch_equals_ignore_index target prediction (Some ignored)
  = Err OverflowError.
Proof.
  intros Hout. unfold torch_equals_ignore_index.
  rewrite (tensor_ne_out_of_range target ignored Hout). reflexivity.
Qed.

Lemma select_all (t : list Z) (ignored : Z) :
  ~ In ignored t -> select t (map (fun x => negb (x =? ignored)) t) = t.
Proof.
  induction t as [|x t IH]; simpl; intros Hnot; [reflexivity|].
  destruct (Z.eqb_spec x ignored) as [->|Hne]; [tauto|]. simpl.
  f_equal. apply IH. tauto.
Qed.

(** X13. The mask is computed from the target alone: with [LongTensor]s of
    the same length, ignoring an index that their elements can hold (a
    Python int of 64 bits, signed) and that does not occur in the target is
    the same as ignoring nothing, also when the index occurs in the
    prediction. *)
Theorem ignoring_an_absent_index (target prediction : list Z) (ignored : Z) :
  - 2 ^ 63 <= ignored < 2 ^ 63 ->
  length target = length prediction ->
  ~ In ignored target ->
  torch_equals_ignore_index target prediction (Some ignored)
  = torch_equals_ignore_index target prediction None.
Proof.
  intros Hrange Hlen Hnot.
  rewrite (equals_ignore_index_select target prediction ignored Hrange Hlen).
  cbn [torch_equals_ignore_index]. f_equal. unfold torch_equal.
  rewrite (select_all target ignored Hnot).
  apply bool_decide_ext. split.
  - intros H.
    destruct (select_agree target prediction ignored Hlen) as [Hto _].
    rewrite (select_all target ignored Hnot) in Hto.
    apply list_eq. intros k.
    destruct (target !! k) as [x|] eqn:Hk.
    + symmetry. apply (Hto H k x Hk). intros ->.
      apply Hnot, list_elem_of_In, list_elem_of_lookup. eauto.
    + symmetry. apply lookup_ge_None. rewrite <- Hlen.
      apply lookup_ge_None, Hk.
  - intros <-. symmetry. apply select_all, Hnot.
Qed.

Lemma ignoring_an_absent_index_witness :
  torch_equals_ignore_index [1; 2] [1; 0] (Some 0)
  = torch_equals_ignore_index [1; 2] [1; 0] None.
Proof.
  apply (ignoring_an_absent_index [1; 2] [1; 0] 0).
  - split; [vm_compute; discriminate|reflexivity].
  - reflexivity.
  - simpl. intros [H|[H|[]]]; discriminate.
Defined.

(** ** [CharacterEncoder.decode] *)

Lemma comprehension_app {A B : Type} (f : A -> attempt B) (xs ys : list A) :
  comprehension f (xs ++ ys) =
    and_then (comprehension f xs) (fun us =>
    and_then (comprehension f ys) (fun vs => Ok (us ++ vs))).
Proof.
  induction xs as [|x xs IH]; simpl.
  - destruct (comprehension f ys); reflexivity.
  - destruct (f x) as [y|e]; simpl; [|reflexivity].
    rewrite IH. destruct (comprehension f xs) as [us|e]; simpl; [|reflexivity].
    destruct (comprehension f ys); reflexivity.
Qed.

Lemma append_associative (a b c : string) :
  String.append a (String.append b c) = String.append (String.append a b) c.
Proof.
  induction a as [|ch a IH]; [reflexivity|].
  change (String ch (String.append a (String.append b c))
          = String ch (String.append (String.append a b) c)).
  f_equal. exact IH.
Qed.

Lemma join_app (us vs : list string) :
  join (us ++ vs) = String.append (join us) (join vs).
Proof.
  unfold join. induction us as [|u us IH]; simpl; [reflexivity|].
  rewrite IH. apply append_associative.
Qed.

(** X14. Decoding a concatenation is decoding the two parts in order: the
    text is the concatenation of the two texts, and an exception of the
    first part, else of the second, is the exception of the whole. *)
Theorem decode_concatenation (itos : list string) (a b : list Z) :
  decode itos (a ++ b) =
    and_then (decode itos a) (fun text_a =>
    and_then (decode itos b) (fun text_b =>
    Ok (String.append text_a text_b))).
Proof.
  unfold decode. rewrite comprehension_app.
  destruct (comprehension (getitem itos) a) as [us|e]; simpl; [|reflexivity].
  destruct (comprehension (getitem itos) b) as [vs|e]; simpl; [|reflexivity].
  rewrite join_app. reflexivity.
Qed.

Lemma getitem_in_range {A : Type} (xs : list A) (i : Z) :
  (- len xs <= i < len xs -> exists x, getitem xs i = Ok x) /\
  (~ (- len xs <= i < len xs) -> getitem xs i = Err IndexError).
Proof.
  unfold getitem. set (n := len xs).
  assert (Hn : n = Z.of_nat (length xs)) by reflexivity.
  set (j := if i <? 0 then i + n else i).
  assert (Hj : (- n <= i < n) <-> (0 <= j < n)).
  { unfold j. destruct (Z.ltb_spec i 0); lia. }
  destruct (Z.ltb_spec j 0) as [Hlt|Hge]; simpl.
  - split; [lia|reflexivity].
  - destruct (Z.leb_spec n j) as [Hle|Hlt]; simpl.
    + split; [lia|reflexivity].
    + destruct (xs !! Z.to_nat j) as [x|] eqn:Hx.
      * split; [eauto|lia].
      * apply lookup_ge_None in Hx. lia.
Qed.

(** X15. Decoding returns a text exactly when every index of the tensor is
    an index of [itos], counted from the start (from 0) or from the end
    (from -1); any other index raises [IndexError], and nothing else is
    raised. *)
Theorem decode_index_range (itos : list string) (tensor : list Z) :
  ((exists text, decode itos tensor = Ok text) <->
   forall i, In i tensor -> - len itos <= i < len itos) /\
  ((exists text, decode itos tensor = Ok text) \/
   decode itos tensor = Err IndexError).
Proof.
  unfold decode.
  assert (H : (exists tokens, comprehension (getitem itos) tensor = Ok tokens /\
                 forall i, In i tensor -> - len itos <= i < len itos) \/
              (comprehension (getitem itos) tensor = Err IndexError /\
               exists i, In i tensor /\ ~ (- len itos <= i < len itos))).
  { induction tensor as [|i tensor IH]; simpl.
    - left. exists []. split; [reflexivity|intros i []].
    - destruct (getitem_in_range itos i) as [Hin Hout].
      destruct (Z_le_dec (- len itos) i) as [Hlo|Hlo];
        [destruct (Z_lt_dec i (len itos)) as [Hhi|Hhi]|].
      + destruct (Hin (conj Hlo Hhi)) as [x ->]. simpl.
        destruct IH as [(tokens & -> & Hall)|(-> & j & Hj & Hbad)]; simpl.
        * left. eexists. split; [reflexivity|].
          intros k [<-|Hk]; auto.
        * right. split; [reflexivity|]. exists j. auto.
      + rewrite Hout by lia. simpl. right. split; [reflexivity|].
        exists i. split; [auto|lia].
      + rewrite Hout by lia. simpl. right. split; [reflexivity|].
        exists i. split; [auto|lia]. }
  destruct H as [(tokens & -> & Hall)|(-> & j & Hj & Hbad)]; simpl.
  - split; [|left; eauto]. split; [intros _; exact Hall|eauto].
  - split; [|right; reflexivity]. split.
    + intros [text Ht]. discriminate.
    + intros Hall. exfalso. apply Hbad, Hall, Hj.
Qed.

(** Tokens are looked up from the end by negative indices. *)
Example decode_negative_index :
  decode ["<pad>"; "a"; "b"]%string [1; -1; 2; -2] = Ok "abba"%string.
Proof. reflexivity. Qed.

(** ** Further properties of [pad] *)

Lemma pad_closed_form (PADDING_INDEX : Z) (batch : list (list Z)) :
  batch <> [] ->
  exists max_len,
    (forall row, In row batch -> len row <= max_len) /\
    (exists row, In row batch /\ len row = max_len) /\
    pad PADDING_INDEX batch =
      Return (map (fun row =>
                     row ++ replicate (Z.to_nat (max_len - len row)) PADDING_INDEX)
                  batch,
              map len batch).
Proof.
  intros Hne. destruct batch as [|row0 batch]; [congruence|]. clear Hne.
  set (b := row0 :: batch).
  set (m := fold_left Z.max (map len batch) (len row0)).
  exists m.
  destruct (fold_max_ge (map len batch) (len row0)) as (H1 & H2 & H3).
  fold m in H1, H2, H3.
  split; [|split].
  - intros row [<-|Hrow]; [exact H1|]. apply H2, in_map, Hrow.
  - change (len row0 :: map len batch) with (map len b) in H3.
    apply in_map_iff in H3. destruct H3 as (row & Hrow & Hin). eauto.
  - unfold pad. change (map len b) with (len row0 :: map len batch).
    cbv beta iota delta [py_max]. fold m.
    rewrite fold_pad_row. reflexivity.
Qed.

(** X16. [pad] raises exactly on the empty batch, and what it raises then is
    the [ValueError] of [max]; on every other batch it returns. *)
Theorem pad_raises_on_empty_batch_only (PADDING_INDEX : Z)
    (batch : list (list Z)) :
  (pad PADDING_INDEX batch = Raise ValueError <-> batch = []) /\
  (batch <> [] ->
   exists padded lengths, pad PADDING_INDEX batch = Return (padded, lengths)).
Proof.
  split.
  - split.
    + intros H. destruct batch as [|row0 batch]; [reflexivity|].
      destruct (pad_closed_form PADDING_INDEX (row0 :: batch))
        as (m & _ & _ & Heq); [discriminate|].
      rewrite Heq in H. discriminate.
    + intros ->. reflexivity.
  - intros Hne.
    destruct (pad_closed_form PADDING_INDEX batch Hne) as (m & _ & _ & Heq).
    eauto.
Qed.

(** X17. Nothing of the input is lost: cutting each padded row back to the
    length [pad] reports for it gives the batch again, row by row and in the
    same order. *)
Theorem pad_can_be_undone (PADDING_INDEX : Z) (batch padded : list (list Z))
    (lengths : list Z) :
  pad PADDING_INDEX batch = Return (padded, lengths) ->
  zip_with (fun n row => take (Z.to_nat n) row) lengths padded = batch.
Proof.
  intros Hpad.
  assert (Hne : batch <> []) by (intros ->; discriminate).
  destruct (pad_closed_form PADDING_INDEX batch Hne) as (m & _ & _ & Heq).
  rewrite Heq in Hpad. inversion Hpad; subst. clear.
  induction batch as [|row batch IH]; simpl; [reflexivity|].
  rewrite IH. f_equal. unfold len. rewrite Nat2Z.id.
  apply take_app_length.
Qed.

Lemma pad_can_be_undone_witness :
  zip_with (fun n row => take (Z.to_nat n) row)
           [2; 3; 1] [[5; 6; 0]; [7; 8; 9]; [4; 0; 0]]
  = [[5; 6]; [7; 8; 9]; [4]].
Proof.
  apply (pad_can_be_undone 0 [[5; 6]; [7; 8; 9]; [4]]). reflexivity.
Defined.

(** X18. Padding what [pad] returned changes nothing: the rows come back as
    they are, and every reported length is the common length, which bounds
    the lengths of the first call. *)
Theorem pad_is_idempotent (PADDING_INDEX : Z) (batch padded : list (list Z))
    (lengths : list Z) :
  pad PADDING_INDEX batch = Return (padded, lengths) ->
  exists max_len,
    pad PADDING_INDEX padded
      = Return (padded, replicate (length batch) max_len) /\
    forall n, In n lengths -> n <= max_len.
Proof.
  intros Hpad.
  assert (Hne : batch <> []) by (intros ->; discriminate).
  destruct (pad_closed_form PADDING_INDEX batch Hne) as (m & Hle & _ & Heq).
  rewrite Heq in Hpad. inversion Hpad; subst. clear Hpad Heq.
  exists m. split.
  - set (f := fun row => row ++ replicate (Z.to_nat (m - len row)) PADDING_INDEX).
    assert (Hlen : forall row, In row batch -> len (f row) = m).
    { intros row Hrow. unfold f, len.
      rewrite length_app, length_replicate.
      specialize (Hle row Hrow). unfold len in Hle. lia. }
    assert (Hne' : map f batch <> [])
      by (destruct batch; [congruence|discriminate]).
    destruct (pad_closed_form PADDING_INDEX (map f batch) Hne')
      as (m' & Hle' & (row' & Hin' & Hm') & Heq').
    apply in_map_iff in Hin'. destruct Hin' as (row & <- & Hin).
    rewrite Hlen in Hm' by exact Hin. subst m'.
    rewrite Heq'. f_equal. f_equal.
    + rewrite <- (map_id (map f batch)) at 2.
      apply map_ext_in. intros prow Hprow.
      apply in_map_iff in Hprow. destruct Hprow as (row1 & <- & Hin1).
      rewrite Hlen by exact Hin1. rewrite Z.sub_diag. simpl.
      apply app_nil_r.
    + clear - Hlen. induction batch as [|row batch IH]; simpl; [reflexivity|].
      rewrite Hlen by (left; reflexivity). f_equal.
      apply IH. intros r Hr. apply Hlen. right. exact Hr.
  - intros n Hn. apply in_map_iff in Hn. destruct Hn as (row & <- & Hrow).
    apply Hle, Hrow.
Qed.

Lemma pad_is_idempotent_witness :
  exists max_len,
    pad 0 [[5; 6; 0]; [7; 8; 9]; [4; 0; 0]]
      = Return ([[5; 6; 0]; [7; 8; 9]; [4; 0; 0]],
                replicate (length [[5; 6]; [7; 8; 9]; [4]]) max_len) /\
    forall n, In n [2; 3; 1] -> n <= max_len.
Proof.
  apply (pad_is_idempotent 0 [[5; 6]; [7; 8; 9]; [4]]). reflexivity.
Defined.

(** ** [collate_fn] *)

Lemma insert_desc_perm {A : Type} (x : Z * A) (l : list (Z * A)) :
  Permutation (insert_desc x l) (x :: l).
Proof.
  induction l as [|y l IH]; simpl; [reflexivity|].
  destruct (fst y <=? fst x); [reflexivity|].
  rewrite IH. apply perm_swap.
Qed.

Lemma sorted_desc_perm {A : Type} (l : list (Z * A)) :
  Permutation (sorted_desc l) l.
Proof.
  unfold sorted_desc. induction l as [|x l IH]; simpl; [reflexivity|].
  rewrite insert_desc_perm. constructor. exact IH.
Qed.

Lemma insert_desc_sorted {A : Type} (x : Z * A) (l : list (Z * A)) :
  StronglySorted (fun a b => fst b <= fst a) l ->
  StronglySorted (fun a b => fst b <= fst a) (insert_desc x l).
Proof.
  induction 1 as [|y l Hl IH Hy]; simpl.
  - constructor; constructor.
  - rewrite List.Forall_forall in Hy.
    destruct (Z.leb_spec (fst y) (fst x)) as [Hle|Hgt].
    + constructor; [constructor; [exact Hl|]|].
      * apply List.Forall_forall. exact Hy.
      * apply List.Forall_forall. intros z [<-|Hz]; [lia|].
        specialize (Hy z Hz). simpl in Hy. lia.
    + constructor; [exact IH|].
      apply List.Forall_forall. intros z Hz.
      apply (Permutation_in _ (insert_desc_perm x l)) in Hz.
      destruct Hz as [<-|Hz]; [lia|apply Hy, Hz].
Qed.

Lemma sorted_desc_sorted {A : Type} (l : list (Z * A)) :
  StronglySorted (fun a b => fst b <= fst a) (sorted_desc l).
Proof.
  unfold sorted_desc. induction l as [|x l IH]; simpl; [constructor|].
  apply insert_desc_sorted, IH.
Qed.

Lemma insert_desc_stable {A : Type} (n : Z) (x : Z * A) (l : list (Z * A)) :
  List.filter (fun p => fst p =? n) (insert_desc x l)
  = List.filter (fun p => fst p =? n) (x :: l).
Proof.
  induction l as [|y l IH]; [reflexivity|].
  cbn [insert_desc].
  destruct (Z.leb_spec (fst y) (fst x)) as [Hle|Hgt]; [reflexivity|].
  cbn [List.filter] in *. rewrite IH.
  destruct (Z.eqb_spec (fst x) n) as [Hx|Hx];
    destruct (Z.eqb_spec (fst y) n) as [Hy|Hy]; try reflexivity. lia.
Qed.

Lemma sorted_desc_stable {A : Type} (n : Z) (l : list (Z * A)) :
  List.filter (fun p => fst p =? n) (sorted_desc l)
  = List.filter (fun p => fst p =? n) l.
Proof.
  unfold sorted_desc. induction l as [|x l IH]; [reflexivity|].
  cbn [fold_right]. rewrite insert_desc_stable.
  cbn [List.filter]. rewrite IH. reflexivity.
Qed.

Lemma filter_has_length (key : string) (n : Z)
    (keyed : list (Z * gmap string value)) :
  Forall (fun p => exists t, snd p !! key = Some (VTensor t) /\ fst p = len t)
         keyed ->
  List.filter (has_length key n) (map snd keyed)
  = map snd (List.filter (fun p => fst p =? n) keyed).
Proof.
  induction 1 as [|p keyed (t & Ht & Hn) _ IH]; [reflexivity|].
  cbn [map List.filter]. rewrite IH. unfold has_length at 1.
  rewrite Ht, <- Hn. destruct (fst p =? n); reflexivity.
Qed.

Lemma comprehension_lookup {A B : Type} (f : A -> attempt B) (xs : list A)
    (ys : list B) :
  comprehension f xs = Ok ys ->
  length ys = length xs /\
  forall (i : nat) (x : A), xs !! i = Some x ->
    exists y, f x = Ok y /\ ys !! i = Some y.
Proof.
  revert ys. induction xs as [|x xs IH]; simpl; intros ys H.
  - inversion H; subst. split; [reflexivity|]. intros i x Hx. discriminate.
  - destruct (f x) as [y|e] eqn:Hfx; simpl in H; [|discriminate].
    destruct (comprehension f xs) as [ys'|e] eqn:Hc; simpl in H; [|discriminate].
    inversion H; subst. destruct (IH ys' eq_refl) as [Hlen Hall].
    split; [simpl; congruence|].
    intros [|i] z Hz; simpl in *.
    + inversion Hz; subst. eauto.
    + apply Hall, Hz.
Qed.

Lemma comprehension_map {A B : Type} (f : A -> attempt B) (g : A -> B)
    (xs : list A) :
  (forall x, In x xs -> f x = Ok (g x)) ->
  comprehension f xs = Ok (map g xs).
Proof.
  induction xs as [|x xs IH]; simpl; intros H; [reflexivity|].
  rewrite (H x) by auto. simpl. rewrite IH by auto. reflexivity.
Qed.

Lemma pad_lengths (PADDING_INDEX : Z) (rows padded : list (list Z))
    (lengths : list Z) :
  pad PADDING_INDEX rows = Return (padded, lengths) -> lengths = map len rows.
Proof.
  unfold pad. destruct (py_max (map len rows)); intros H; inversion H.
  reflexivity.
Qed.

Lemma transpose_lookup (width : nat) (rows : list (list Z)) :
  Forall (fun row => length row = width) rows ->
  length (transpose width rows) = width /\
  forall j : nat, (j < width)%nat ->
    exists col, transpose width rows !! j = Some col /\
      forall i : nat, col !! i = rows !! i ≫= (fun row => row !! j).
Proof.
  induction 1 as [|row rows Hrow Hrows IH]; simpl.
  - split; [apply length_replicate|]. intros j Hj. exists [].
    split; [apply lookup_replicate_2, Hj|]. intros i. reflexivity.
  - destruct IH as [Hlen IH]. split.
    + rewrite length_zip_with. lia.
    + intros j Hj. destruct (IH j Hj) as (col & Hcol & Hget).
      destruct (lookup_lt_is_Some_2 row j ltac:(lia)) as [x Hx].
      exists (x :: col). split.
      * rewrite lookup_zip_with, Hx, Hcol. reflexivity.
      * intros [|i]; simpl; [rewrite Hx; reflexivity|apply Hget].
Qed.

(** What [collate_column] returns for a key, position by position. *)
Lemma collate_column_spec (PADDING_INDEX : Z)
    (batch : list (gmap string value)) (key : string) (c : collated) :
  collate_column PADDING_INDEX batch key = Ok c ->
  exists tensor lengths,
    c = Padded tensor lengths /\
    length lengths = length batch /\
    forall (i : nat) (row : gmap string value), batch !! i = Some row ->
      exists t, row !! key = Some (VTensor t) /\
        lengths !! i = Some (len t) /\
        forall (j : nat) (x : Z), t !! j = Some x ->
          exists col, tensor !! j = Some col /\ col !! i = Some x.
Proof.
  unfold collate_column. intros H.
  apply and_then_ok in H. destruct H as (vs & Hvs & H).
  apply and_then_ok in H. destruct H as (ts & Hts & H).
  destruct (pad PADDING_INDEX ts) as [[padded lengths]|e] eqn:Hpad;
    simpl in H; [|discriminate].
  inversion H; subst c; clear H.
  assert (Hne : ts <> []) by (intros ->; discriminate).
  destruct (pad_closed_form PADDING_INDEX ts Hne) as (m & Hle & _ & Heq).
  rewrite Heq in Hpad. inversion Hpad; subst padded lengths. clear Hpad Heq.
  destruct (comprehension_lookup _ _ _ Hvs) as [Hlen1 Hget1].
  destruct (comprehension_lookup _ _ _ Hts) as [Hlen2 Hget2].
  set (f := fun row : list Z =>
              row ++ replicate (Z.to_nat (m - len row)) PADDING_INDEX).
  assert (Hwidth : forall t, In t ts -> length (f t) = Z.to_nat m).
  { intros t Ht. unfold f, len. rewrite length_app, length_replicate.
    specialize (Hle t Ht). unfold len in Hle. lia. }
  assert (Hrows : Forall (fun row => length row = Z.to_nat m) (map f ts)).
  { apply List.Forall_forall. intros prow Hp.
    apply in_map_iff in Hp. destruct Hp as (t & <- & Ht). apply Hwidth, Ht. }
  assert (Hw : match map f ts with [] => 0%nat | row :: _ => length row end
               = Z.to_nat m).
  { destruct ts as [|t0 ts']; [congruence|]. simpl. apply Hwidth. left.
    reflexivity. }
  rewrite Hw.
  destruct (transpose_lookup (Z.to_nat m) (map f ts) Hrows) as [_ Hcols].
  eexists _, _. split; [reflexivity|]. split.
  { rewrite length_map. congruence. }
  intros i row Hrow.
  destruct (Hget1 i row Hrow) as (v & Hv & Hvi).
  destruct (Hget2 i v Hvi) as (t & Ht & Hti).
  unfold row_get in Hv. destruct (row !! key) as [v'|] eqn:Hk; [|discriminate].
  inversion Hv; subst v'. destruct v as [t'|o]; simpl in Ht; [|discriminate].
  inversion Ht; subst t'. exists t. split; [reflexivity|]. split.
  { rewrite list_lookup_fmap, Hti. reflexivity. }
  intros j x Hx.
  assert (Hin : In t ts).
  { apply list_elem_of_In, list_elem_of_lookup. eauto. }
  pose proof (lookup_lt_Some _ _ _ Hx) as Hj.
  specialize (Hle t Hin). unfold len in Hle.
  destruct (Hcols j ltac:(lia)) as (col & Hcol & Hget).
  exists col. split; [exact Hcol|].
  rewrite Hget, list_lookup_fmap, Hti. simpl. unfold f.
  rewrite lookup_app_l by exact Hj. exact Hx.
Qed.

Lemma other_columns_spec (batch : list (gmap string value))
    (input_key output_key : string) (ret ret' : gmap string collated) :
  other_columns batch input_key output_key ret = Ok ret' ->
  exists first rest, batch = first :: rest /\
    (forall key, key = input_key \/ key = output_key ->
       ret' !! key = ret !! key) /\
    (forall key, key <> input_key -> key <> output_key ->
       is_Some (first !! key) ->
       exists values,
         ret' !! key = Some (Column values) /\
         comprehension (fun row => row_get row key) batch = Ok values) /\
    (forall key, key <> input_key -> key <> output_key ->
       first !! key = None -> ret' !! key = ret !! key).
Proof.
  unfold other_columns. destruct batch as [|first rest]; [discriminate|].
  intros H. exists first, rest. split; [reflexivity|].
  set (b := first :: rest) in *.
  revert ret' H.
  apply (map_fold_weak_ind
    (fun (acc : attempt (gmap string collated)) (m : gmap string value) =>
       forall ret', acc = Ok ret' ->
         (forall key, key = input_key \/ key = output_key ->
            ret' !! key = ret !! key) /\
         (forall key, key <> input_key -> key <> output_key ->
            is_Some (m !! key) ->
            exists values,
              ret' !! key = Some (Column values) /\
              comprehension (fun row => row_get row key) b = Ok values) /\
         (forall key, key <> input_key -> key <> output_key ->
            m !! key = None -> ret' !! key = ret !! key))).
  - intros ret' H. inversion H; subst. split; [auto|]. split; [|auto].
    intros key _ _ [v Hv]. rewrite lookup_empty in Hv. discriminate.
  - intros k v m acc Hk IH ret' H.
    destruct acc as [ret0|e]; cbn [and_then] in H; [|discriminate].
    destruct (IH ret0 eq_refl) as (IH1 & IH2 & IH3).
    destruct (bool_decide (k = input_key \/ k = output_key)) eqn:Hd.
    + apply bool_decide_eq_true in Hd. inversion H; subst ret'.
      split; [exact IH1|]. split.
      * intros key Hi Ho Hsome.
        rewrite lookup_insert_ne in Hsome by (intros ->; tauto).
        apply IH2; assumption.
      * intros key Hi Ho Hnone.
        rewrite lookup_insert_ne in Hnone by (intros ->; tauto).
        apply IH3; assumption.
    + apply bool_decide_eq_false in Hd.
      destruct (comprehension (fun row => row_get row k) b) as [values|e] eqn:Hc;
        cbn [and_then] in H; [|discriminate].
      inversion H; subst ret'. split; [|split].
      * intros key Hkey. rewrite lookup_insert_ne by (intros ->; tauto).
        apply IH1, Hkey.
      * intros key Hi Ho Hsome. destruct (decide (k = key)) as [->|Hne].
        -- exists values. rewrite lookup_insert_eq. auto.
        -- rewrite lookup_insert_ne by exact Hne.
           rewrite lookup_insert_ne in Hsome by exact Hne.
           apply IH2; assumption.
      * intros key Hi Ho Hnone. destruct (decide (k = key)) as [->|Hne].
        -- rewrite lookup_insert_eq in Hnone. discriminate.
        -- rewrite lookup_insert_ne by exact Hne.
           rewrite lookup_insert_ne in Hnone by exact Hne.
           apply IH3; assumption.
Qed.

Lemma collate_fn_unsorted (PADDING_INDEX : Z) (batch : list (gmap string value))
    (input_key output_key : string) (ret : gmap string collated) :
  collate_fn PADDING_INDEX batch input_key output_key None = Ok ret ->
  exists input output first rest,
    collate_column PADDING_INDEX batch input_key = Ok input /\
    collate_column PADDING_INDEX batch output_key = Ok output /\
    batch = first :: rest /\
    ret !! output_key = Some output /\
    (input_key <> output_key -> ret !! input_key = Some input) /\
    (forall key, key <> input_key -> key <> output_key ->
       is_Some (first !! key) ->
       exists values,
         ret !! key = Some (Column values) /\
         comprehension (fun row => row_get row key) batch = Ok values) /\
    (forall key, key <> input_key -> key <> output_key ->
       first !! key = None -> ret !! key = None).
Proof.
  unfold collate_fn, sort_batch. cbn [and_then]. intros H.
  apply and_then_ok in H. destruct H as (input & Hin & H).
  apply and_then_ok in H. destruct H as (output & Hout & H).
  apply other_columns_spec in H.
  destruct H as (first & rest & Hb & Hkeys & Hsome & Hnone).
  exists input, output, first, rest.
  split; [exact Hin|]. split; [exact Hout|]. split; [exact Hb|].
  split; [|split; [|split]].
  - rewrite Hkeys by auto. apply lookup_insert_eq.
  - intros Hne. rewrite Hkeys by auto.
    rewrite lookup_insert_ne by congruence. apply lookup_insert_eq.
  - exact Hsome.
  - intros key Hi Ho Hf. rewrite (Hnone key Hi Ho Hf).
    rewrite !lookup_insert_ne by congruence. apply lookup_empty.
Qed.

(** X19. Without a sort key, what [collate_fn] returns under the input key
    and under the output key is time-major and aligned with the batch:
    [lengths[i]] is the length of the tensor of row [i], and element [j] of
    that tensor is at [tensor[j][i]]. The batch keeps its order. *)
Theorem collate_is_aligned_and_transposed (PADDING_INDEX : Z)
    (batch : list (gmap string value)) (input_key output_key key : string)
    (ret : gmap string collated) :
  collate_fn PADDING_INDEX batch input_key output_key None = Ok ret ->
  key = input_key \/ key = output_key ->
  exists tensor lengths,
    ret !! key = Some (Padded tensor lengths) /\
    length lengths = length batch /\
    forall (i : nat) (row : gmap string value), batch !! i = Some row ->
      exists t, row !! key = Some (VTensor t) /\
        lengths !! i = Some (len t) /\
        forall (j : nat) (x : Z), t !! j = Some x ->
          exists col, tensor !! j = Some col /\ col !! i = Some x.
Proof.
  intros H Hkey. apply collate_fn_unsorted in H.
  destruct H as (input & output & first & rest & Hin & Hout & _ & Ho & Hi & _).
  assert (Hc : exists c, collate_column PADDING_INDEX batch key = Ok c /\
                         ret !! key = Some c).
  { destruct (decide (key = output_key)) as [->|Hne]; [eauto|].
    destruct Hkey as [-> | ->]; [|congruence]. eauto. }
  destruct Hc as (c & Hcol & Hret).
  destruct (collate_column_spec _ _ _ _ Hcol) as (tensor & lengths & Hc & Hspec).
  subst c.
  exists tensor, lengths. split; [exact Hret|exact Hspec].
Qed.

Lemma collate_is_aligned_and_transposed_witness :
  exists tensor lengths,
    collated_or_empty (collate_fn 0 sample_batch "src" "tgt" None)
      !! "src"%string = Some (Padded tensor lengths) /\
    length lengths = length sample_batch /\
    forall (i : nat) (row : gmap string value),
      sample_batch !! i = Some row ->
      exists t, row !! "src"%string = Some (VTensor t) /\
        lengths !! i = Some (len t) /\
        forall (j : nat) (x : Z), t !! j = Some x ->
          exists col, tensor !! j = Some col /\ col !! i = Some x.
Proof.
  apply (collate_is_aligned_and_transposed 0 sample_batch "src" "tgt" "src").
  - vm_compute. reflexivity.
  - left. reflexivity.
Defined.

(** The sample batch, collated: the rows are the columns of the tensors. *)
Example sample_batch_collated :
  collate_fn 0 sample_batch "src" "tgt" None =
  Ok (<["src" := Padded [[5; 7; 4]; [6; 8; 0]; [0; 9; 0]] [2; 3; 1]]>
      (<["tgt" := Padded [[1; 2; 0]; [0; 3; 0]] [1; 2; 1]]>
      (<["id" := Column [VObject 10; VObject 11; VObject 12]]> ∅))).
Proof. vm_compute. reflexivity. Qed.

(** X20. Without a sort key, every other key of the first row becomes a
    column aligned with the batch: position [i] holds what row [i] holds
    under that key. A key the first row does not have is not in the result,
    whatever the later rows hold. *)
Theorem collate_other_keys_follow_first_row (PADDING_INDEX : Z)
    (batch : list (gmap string value)) (input_key output_key key : string)
    (ret : gmap string collated) :
  collate_fn PADDING_INDEX batch input_key output_key None = Ok ret ->
  key <> input_key -> key <> output_key ->
  exists first rest, batch = first :: rest /\
    match first !! key with
    | Some _ =>
        exists values,
          ret !! key = Some (Column values) /\
          length values = length batch /\
          forall (i : nat) (row : gmap string value), batch !! i = Some row ->
            exists v, row !! key = Some v /\ values !! i = Some v
    | None => ret !! key = None
    end.
Proof.
  intros H Hi Ho. apply collate_fn_unsorted in H.
  destruct H as (input & output & first & rest & _ & _ & Hb & _ & _ & Hsome & Hnone).
  exists first, rest. split; [exact Hb|].
  destruct (first !! key) as [v|] eqn:Hv.
  - destruct (Hsome key Hi Ho ltac:(eauto)) as (values & Hret & Hc).
    exists values. split; [exact Hret|].
    destruct (comprehension_lookup _ _ _ Hc) as [Hlen Hget].
    split; [exact Hlen|].
    intros i row Hrow. destruct (Hget i row Hrow) as (w & Hw & Hwi).
    unfold row_get in Hw. destruct (row !! key) as [w'|]; [|discriminate].
    inversion Hw; subst. eauto.
  - apply Hnone; assumption.
Qed.

Lemma collate_other_keys_follow_first_row_witness :
  exists first rest, sample_batch = first :: rest /\
    match first !! "id"%string with
    | Some _ =>
        exists values,
          collated_or_empty (collate_fn 0 sample_batch "src" "tgt" None)
            !! "id"%string = Some (Column values) /\
          length values = length sample_batch /\
          forall (i : nat) (row : gmap string value),
            sample_batch !! i = Some row ->
            exists v, row !! "id"%string = Some v /\ values !! i = Some v
    | None =>
        collated_or_empty (collate_fn 0 sample_batch "src" "tgt" None)
          !! "id"%string = None
    end.
Proof.
  apply (collate_other_keys_follow_first_row 0 sample_batch "src" "tgt" "id").
  - vm_compute. reflexivity.
  - discriminate.
  - discriminate.
Defined.

Lemma sort_keys_spec (key : string) (batch : list (gmap string value))
    (keyed : list (Z * gmap string value)) :
  comprehension (sort_key_of key) batch = Ok keyed ->
  map snd keyed = batch /\
  Forall (fun p => exists t, snd p !! key = Some (VTensor t) /\ fst p = len t)
         keyed.
Proof.
  revert keyed. induction batch as [|row batch IH]; simpl; intros keyed H.
  - inversion H; subst. split; [reflexivity|constructor].
  - apply and_then_ok in H. destruct H as (p & Hp & H).
    apply and_then_ok in H. destruct H as (ps & Hps & H).
    inversion H; subst keyed. destruct (IH ps Hps) as [Hmap Hall].
    unfold sort_key_of in Hp.
    apply and_then_ok in Hp. destruct Hp as (v & Hv & Hp).
    apply and_then_ok in Hp. destruct Hp as (t & Ht & Hp).
    inversion Hp; subst p. simpl.
    unfold row_get in Hv. destruct (row !! key) as [v'|] eqn:Hk; [|discriminate].
    inversion Hv; subst v'. destruct v as [t'|o]; simpl in Ht; [|discriminate].
    inversion Ht; subst t'.
    split; [f_equal; exact Hmap|]. constructor; [|exact Hall].
    simpl. eauto.
Qed.

Lemma strongly_sorted_lookup {A : Type} (R : A -> A -> Prop) (l : list A)
    (i j : nat) (a b : A) :
  StronglySorted R l -> (i < j)%nat ->
  l !! i = Some a -> l !! j = Some b -> R a b.
Proof.
  intros Hs. revert i j. induction Hs as [|x l Hl IH Hx]; intros i j Hij Ha Hb.
  - discriminate.
  - destruct j as [|j]; [lia|]. destruct i as [|i]; simpl in *.
    + inversion Ha; subst. rewrite List.Forall_forall in Hx. apply Hx.
      apply list_elem_of_In, list_elem_of_lookup. eauto.
    + apply (IH i j); [lia|assumption|assumption].
Qed.

(** X21. With a sort key that is not empty, [collate_fn] collates a
    rearrangement of the batch: the result is what it returns, without a
    sort key, on a permutation of the rows in which the tensors under the
    sort key have decreasing lengths (an earlier row is never shorter than a
    later one) and rows of the same length keep their input order. *)
Theorem collate_sorts_by_decreasing_length (PADDING_INDEX : Z)
    (batch : list (gmap string value)) (input_key output_key sort_key : string)
    (ret : gmap string collated) :
  sort_key <> EmptyString ->
  collate_fn PADDING_INDEX batch input_key output_key (Some sort_key) = Ok ret ->
  exists sorted,
    Permutation sorted batch /\
    collate_fn PADDING_INDEX sorted input_key output_key None = Ok ret /\
    (forall (i j : nat) (ri rj : gmap string value) (ti tj : list Z),
       (i < j)%nat -> sorted !! i = Some ri -> sorted !! j = Some rj ->
       ri !! sort_key = Some (VTensor ti) -> rj !! sort_key = Some (VTensor tj) ->
       len tj <= len ti) /\
    forall n, List.filter (has_length sort_key n) sorted
              = List.filter (has_length sort_key n) batch.
Proof.
  intros Hne H.
  destruct sort_key as [|c key']; [congruence|].
  set (key := String c key') in *.
  unfold collate_fn in H. cbn [sort_batch] in H. fold key in H.
  apply and_then_ok in H. destruct H as (sorted & Hsort & H).
  apply and_then_ok in Hsort. destruct Hsort as (keyed & Hkeyed & Hsort).
  inversion Hsort; subst sorted. clear Hsort.
  destruct (sort_keys_spec key batch keyed Hkeyed) as [Hmap Hall].
  assert (Hall' : Forall (fun p => exists t, snd p !! key = Some (VTensor t) /\
                                             fst p = len t) (sorted_desc keyed)).
  { apply List.Forall_forall. intros p Hp.
    apply (Permutation_in _ (sorted_desc_perm keyed)) in Hp.
    rewrite List.Forall_forall in Hall. apply Hall, Hp. }
  exists (map snd (sorted_desc keyed)). split; [|split; [|split]].
  - rewrite <- Hmap. apply Permutation_map, sorted_desc_perm.
  - exact H.
  - intros i j ri rj ti tj Hij Hi Hj Hti Htj.
    rewrite list_lookup_fmap in Hi, Hj.
    destruct (sorted_desc keyed !! i) as [[ni ri']|] eqn:Hki; [|discriminate].
    destruct (sorted_desc keyed !! j) as [[nj rj']|] eqn:Hkj; [|discriminate].
    simpl in Hi, Hj. inversion Hi; subst ri'. inversion Hj; subst rj'.
    pose proof (strongly_sorted_lookup _ _ i j _ _
                  (sorted_desc_sorted keyed) Hij Hki Hkj) as Hle.
    simpl in Hle.
    assert (Hinv : forall n r, In (n, r) (sorted_desc keyed) ->
              exists t, r !! key = Some (VTensor t) /\ n = len t).
    { intros n r Hin.
      apply (Permutation_in _ (sorted_desc_perm keyed)) in Hin.
      rewrite List.Forall_forall in Hall. apply (Hall (n, r) Hin). }
    destruct (Hinv ni ri) as (t1 & Ht1 & ->).
    { apply list_elem_of_In, list_elem_of_lookup. eauto. }
    destruct (Hinv nj rj) as (t2 & Ht2 & ->).
    { apply list_elem_of_In, list_elem_of_lookup. eauto. }
    congruence.
  - intros n. rewrite <- Hmap.
    rewrite !filter_has_length by assumption.
    rewrite sorted_desc_stable. reflexivity.
Qed.

Lemma collate_sorts_by_decreasing_length_witness :
  exists sorted,
    Permutation sorted sample_batch /\
    collate_fn 0 sorted "src" "tgt" None
      = Ok (collated_or_empty
              (collate_fn 0 sample_batch "src" "tgt" (Some "src"%string))) /\
    (forall (i j : nat) (ri rj : gmap string value) (ti tj : list Z),
       (i < j)%nat -> sorted !! i = Some ri -> sorted !! j = Some rj ->
       ri !! "src"%string = Some (VTensor ti) ->
       rj !! "src"%string = Some (VTensor tj) ->
       len tj <= len ti) /\
    forall n, List.filter (has_length "src" n) sorted
              = List.filter (has_length "src" n) sample_batch.
Proof.
  apply (collate_sorts_by_decreasing_length 0 sample_batch "src" "tgt" "src").
  - discriminate.
  - vm_compute. reflexivity.
Defined.

(** The sample batch sorted by source length: rows 1, 0, 2. *)
Example sample_batch_sorted :
  collate_fn 0 sample_batch "src" "tgt" (Some "src"%string) =
  Ok (<["src" := Padded [[7; 5; 4]; [8; 6; 0]; [9; 0; 0]] [3; 2; 1]]>
      (<["tgt" := Padded [[2; 1; 0]; [3; 0; 0]] [2; 1; 1]]>
      (<["id" := Column [VObject 11; VObject 10; VObject 12]]> ∅))).
Proof. vm_compute. reflexivity. Qed.

(** Rows with sources of the same length keep their order: the identifiers
    come out as 2, 1, 3. *)
Example ties_keep_their_order :
  collate_fn 0 [sample_row [1; 1] [0] 1; sample_row [2; 2; 2] [0] 2;
                sample_row [3; 3] [0] 3] "src" "tgt" (Some "src"%string) =
  Ok (<["src" := Padded [[2; 1; 3]; [2; 1; 3]; [2; 0; 0]] [3; 2; 2]]>
      (<["tgt" := Padded [[0; 0; 0]] [1; 1; 1]]>
      (<["id" := Column [VObject 2; VObject 1; VObject 3]]> ∅))).
Proof. vm_compute. reflexivity. Qed.

(** X22. On the empty batch [collate_fn] raises the [ValueError] of [max]
    in [pad], with or without a sort key: it fails before it reaches
    [batch[0]]. *)
Theorem collate_empty_batch (PADDING_INDEX : Z) (input_key output_key : string)
    (sort_key : option string) :
  collate_fn PADDING_INDEX [] input_key output_key sort_key
  = Err (Builtin ValueError).
Proof. destruct sort_key as [[|c key]|]; reflexivity. Qed.

(** ** [iterate_batch] *)

Lemma iterate_from_spec {A : Type} (args : list (tensor A)) (i n : nat) :
  (forall arg, In arg args -> (i + n <= size0 arg)%nat) ->
  exists yielded,
    iterate_from args i n = (yielded, None) /\
    length yielded = n /\
    forall (d k : nat) (arg : tensor A), (d < n)%nat -> args !! k = Some arg ->
      exists ret v,
        yielded !! d = Some ret /\ ret !! k = Some v /\
        vsize v = size1 arg /\
        forall j, ventry v j = entry arg (i + d) j.
Proof.
  revert i. induction n as [|n IH]; intros i Hsize; simpl.
  - exists []. split; [reflexivity|]. split; [reflexivity|]. intros; lia.
  - rewrite (comprehension_map _
               (fun arg => {| vsize := size1 arg;
                              ventry := fun j => entry arg i j |})).
    2:{ intros arg Harg. unfold tensor_getitem.
        specialize (Hsize arg Harg).
        rewrite (proj2 (Nat.ltb_lt _ _)) by lia. reflexivity. }
    destruct (IH (S i)) as (yielded & Heq & Hlen & Hget).
    { intros arg Harg. specialize (Hsize arg Harg). lia. }
    rewrite Heq. eexists. split; [reflexivity|]. split; [simpl; lia|].
    intros [|d] k arg Hd Hk.
    + eexists _, _. split; [reflexivity|]. split.
      * rewrite list_lookup_fmap, Hk. reflexivity.
      * simpl. split; [reflexivity|]. intros j. rewrite Nat.add_0_r. reflexivity.
    + destruct (Hget d k arg ltac:(lia) Hk) as (ret & v & Hret & Hv & Hsz & He).
      exists ret, v. split; [exact Hret|]. split; [exact Hv|].
      split; [exact Hsz|]. intros j. rewrite He. f_equal. lia.
Qed.

(** X23. With tensors that have the batch on their second dimension and
    share its size, the generator ends without an exception after one tuple
    per batch index; the tuple of index [b] holds, for each argument in
    order, the sequence of that argument at batch index [b]: its entry [j]
    is the entry [(j, b)] of the argument. *)
Theorem iterate_batch_yields_columns {A : Type} (args : list (tensor A))
    (first : tensor A) (rest : list (tensor A)) :
  args = first :: rest ->
  (forall arg, In arg args -> size1 arg = size1 first) ->
  exists yielded,
    iterate_batch args false = (yielded, None) /\
    length yielded = size1 first /\
    forall (b k : nat) (arg : tensor A),
      (b < size1 first)%nat -> args !! k = Some arg ->
      exists ret v,
        yielded !! b = Some ret /\ ret !! k = Some v /\
        vsize v = size0 arg /\
        forall j, ventry v j = entry arg j b.
Proof.
  intros -> Hsame. unfold iterate_batch.
  change (map transpose01 (first :: rest))
    with (transpose01 first :: map transpose01 rest).
  cbv beta iota zeta.
  change (transpose01 first :: map transpose01 rest)
    with (map transpose01 (first :: rest)).
  change (size0 (transpose01 first)) with (size1 first).
  destruct (iterate_from_spec (map transpose01 (first :: rest)) 0 (size1 first))
    as (yielded & Heq & Hlen & Hget).
  { intros arg Harg. apply in_map_iff in Harg.
    destruct Harg as (arg0 & <- & Harg0). simpl.
    rewrite (Hsame arg0 Harg0). lia. }
  exists yielded. split; [exact Heq|]. split; [exact Hlen|].
  intros b k arg Hb Hk.
  destruct (Hget b k (transpose01 arg) Hb) as (ret & v & Hret & Hv & Hsz & He).
  { rewrite list_lookup_fmap, Hk. reflexivity. }
  exists ret, v. split; [exact Hret|]. split; [exact Hv|].
  split; [exact Hsz|]. intros j. rewrite He. reflexivity.
Qed.

Lemma iterate_batch_yields_columns_witness :
  exists yielded,
    iterate_batch
      [ {| size0 := 2; size1 := 3; entry := fun i j => Z.of_nat (10 * i + j) |} ]
      false = (yielded, None) /\
    length yielded = 3%nat /\
    forall (b k : nat) (arg : tensor Z),
      (b < 3)%nat ->
      [ {| size0 := 2; size1 := 3; entry := fun i j => Z.of_nat (10 * i + j) |} ]
        !! k = Some arg ->
      exists ret v,
        yielded !! b = Some ret /\ ret !! k = Some v /\
        vsize v = size0 arg /\
        forall j, ventry v j = entry arg j b.
Proof.
  apply (iterate_batch_yields_columns
           [ {| size0 := 2; size1 := 3;
                entry := fun i j => Z.of_nat (10 * i + j) |} ]
           {| size0 := 2; size1 := 3; entry := fun i j => Z.of_nat (10 * i + j) |}
           []).
  - reflexivity.
  - intros arg [<-|[]]. reflexivity.
Defined.

Lemma iterate_from_short {A : Type} (args : list (tensor A)) (short : tensor A)
    (i n : nat) :
  In short args -> (i <= size0 short)%nat -> (size0 short < i + n)%nat ->
  (forall arg, In arg args -> (size0 short <= size0 arg)%nat) ->
  exists yielded,
    iterate_from args i n = (yielded, Some IndexError) /\
    (i + length yielded = size0 short)%nat.
Proof.
  intros Hin. revert i. induction n as [|n IH]; intros i Hlo Hhi Hmin; [lia|].
  simpl. destruct (Nat.eq_dec i (size0 short)) as [->|Hne].
  - assert (Herr : comprehension (fun arg => tensor_getitem arg (size0 short)) args
                   = Err IndexError).
    { clear - Hin Hmin. induction args as [|arg args IH]; [destruct Hin|].
      simpl. unfold tensor_getitem at 1.
      destruct (Nat.ltb_spec (size0 short) (size0 arg)) as [Hlt|Hge];
        [|reflexivity].
      simpl. destruct Hin as [->|Hin]; [lia|].
      rewrite IH; [reflexivity|exact Hin|].
      intros a Ha. apply Hmin. right. exact Ha. }
    rewrite Herr. exists []. split; [reflexivity|simpl; lia].
  - rewrite (comprehension_map _
               (fun arg => {| vsize := size1 arg;
                              ventry := fun j => entry arg i j |})).
    2:{ intros arg Harg. unfold tensor_getitem.
        specialize (Hmin arg Harg).
        rewrite (proj2 (Nat.ltb_lt _ _)) by lia. reflexivity. }
    destruct (IH (S i)) as (yielded & Heq & Hlen); [lia|lia|exact Hmin|].
    rewrite Heq. eexists. split; [reflexivity|]. simpl. lia.
Qed.

(** X24. When some argument has fewer batch entries than the first one, the
    generator yields one tuple for each batch index of the shortest
    argument and then ends with [IndexError]. *)
Theorem iterate_batch_stops_at_shortest {A : Type} (args : list (tensor A))
    (first short : tensor A) (rest : list (tensor A)) :
  args = first :: rest ->
  In short args ->
  (size0 short < size0 first)%nat ->
  (forall arg, In arg args -> (size0 short <= size0 arg)%nat) ->
  exists yielded,
    iterate_batch args true = (yielded, Some IndexError) /\
    length yielded = size0 short.
Proof.
  intros -> Hin Hlt Hmin. unfold iterate_batch. cbv beta iota zeta.
  destruct (iterate_from_short (first :: rest) short 0 (size0 first))
    as (yielded & Heq & Hlen); [exact Hin|lia|lia|exact Hmin|].
  exists yielded. split; [exact Heq|]. simpl in Hlen. lia.
Qed.

Lemma iterate_batch_stops_at_shortest_witness :
  exists yielded,
    iterate_batch
      [ {| size0 := 3; size1 := 2; entry := fun i j => Z.of_nat (i + j) |};
        {| size0 := 1; size1 := 2; entry := fun i j => Z.of_nat (i * j) |} ]
      true = (yielded, Some IndexError) /\
    length yielded = 1%nat.
Proof.
  apply (iterate_batch_stops_at_shortest
           [ {| size0 := 3; size1 := 2; entry := fun i j => Z.of_nat (i + j) |};
             {| size0 := 1; size1 := 2; entry := fun i j => Z.of_nat (i * j) |} ]
           {| size0 := 3; size1 := 2; entry := fun i j => Z.of_nat (i + j) |}
           {| size0 := 1; size1 := 2; entry := fun i j => Z.of_nat (i * j) |}
           [ {| size0 := 1; size1 := 2; entry := fun i j => Z.of_nat (i * j) |} ]).
  - reflexivity.
  - right. left. reflexivity.
  - simpl. lia.
  - intros arg [<-|[<-|[]]]; simpl; lia.
Defined.
